(** * Quaternary Echo-Net: consensus engine, message encryption and inbox handler

    A shallow embedding of three modules of the repository:

    - [broadcast/proposal.py]  (module [Proposal]): proposals, echo responses,
      the resonance tally and the [EchoConsensusEngine];
    - [security/encryption.py] (module [Encryption]): [encrypt_message] and
      [decrypt_message] over the primitives of the [cryptography], [base64]
      and codec libraries;
    - [messaging/echo_bus.py]  (module [EchoBus]): the peer directory and the
      inbox callback [_handle_message].

    Conventions.
    - A Python exception is a value [Raise e] of type [result].
    - [datetime] values are integers (microseconds); every call of
      [datetime.now()] is an explicit argument of the operation that makes it.
    - The Python floats of the tally are exact rationals ([Q]).  The values
      0, 1 and 100 that the statements below are about are computed exactly
      by floats as well; the float comparison with 0.8 agrees with the exact
      one for any number of votes below 10^15, the distance between
      [max / total] and 4/5 being then above the rounding error.
    - Proposal objects are shared by reference between the caller, the active
      dictionary and the history list, so the engine carries an object store
      ([heap]) and the two collections hold addresses. *)

From Stdlib Require Import QArith.
From Stdlib Require Strings.Byte.
From stdpp Require Import gmap strings list.

Open Scope string_scope.
Open Scope list_scope.

(** ** Python exceptions *)

Inductive exn : Set :=
  | KeyError            (* a dictionary has no such key *)
  | ValueError          (* malformed input of a library call *)
  | InvalidTag          (* cryptography: the GCM tag does not verify *)
  | UnicodeDecodeError  (* bytes.decode on bytes that are no UTF-8 *)
  | JSONDecodeError     (* json.loads on text that is no JSON *)
  | HandlerError        (* anything the registered callback raises *)
  | DanglingReference.  (* model only: an address with no object behind it *)

Inductive result (A : Type) : Type :=
  | Ok (a : A)
  | Raise (e : exn).
Arguments Ok {A} a.
Arguments Raise {A} e.

#[global] Instance result_ret : MRet result := λ A a, Ok a.

#[global] Instance result_bind : MBind result := λ A B k r,
  match r with
  | Ok a => k a
  | Raise e => Raise e
  end.

Definition of_option {A} (o : option A) (e : exn) : result A :=
  match o with
  | Some a => Ok a
  | None => Raise e
  end.

(** How a call ends. *)
Definition raised {A} (r : result A) : Prop := ∃ err, r = Raise err.
Definition returned {A} (r : result A) : Prop := ∃ a, r = Ok a.

(** ** broadcast/proposal.py *)

Module Proposal.

Inductive EchoType : Set := RESONANT | DISSONANT | INQUIRY | ABSTAIN.

Inductive ProposalStatus : Set := DRAFT | ACTIVE | CONVERGED | FAILED | EXPIRED.

#[global] Instance EchoType_eq_dec : EqDecision EchoType.
Proof. solve_decision. Defined.

#[global] Instance ProposalStatus_eq_dec : EqDecision ProposalStatus.
Proof. solve_decision. Defined.

(** [Enum.value] *)
Definition echo_value (t : EchoType) : string :=
  match t with
  | RESONANT => "resonant"
  | DISSONANT => "dissonant"
  | INQUIRY => "inquiry"
  | ABSTAIN => "abstain"
  end.

Definition status_value (s : ProposalStatus) : string :=
  match s with
  | DRAFT => "draft"
  | ACTIVE => "active"
  | CONVERGED => "converged"
  | FAILED => "failed"
  | EXPIRED => "expired"
  end.

(** Iteration order of [for echo_type in EchoType]. *)
Definition all_echo_types : list EchoType := [RESONANT; DISSONANT; INQUIRY; ABSTAIN].

(** [class EchoResponse].  [pattern_analysis] is always the empty dictionary
    in this repository (no caller passes it) and is left out. *)
Record EchoResponse : Type := {
  node_id : string;
  proposal_id : string;
  echo_type : EchoType;
  commentary : string;
  timestamp : Z
}.

(** [EchoResponse.__init__]: [ts] is its reading of [datetime.now()]. *)
Definition new_echo_response (node_id proposal_id : string) (echo_type : EchoType)
    (commentary : string) (ts : Z) : EchoResponse :=
  {| node_id := node_id;
     proposal_id := proposal_id;
     echo_type := echo_type;
     commentary := commentary;
     timestamp := ts |}.

(** [class ConsciousnessProposal].  [pattern_embeddings] is created empty and
    never read or written again; it is left out. *)
Record ConsciousnessProposal : Type := {
  id : string;
  proposer_node : string;
  title : string;
  description : string;
  proposal_type : string;
  created_at : Z;
  expires_at : Z;
  status : ProposalStatus;
  echoes : gmap string EchoResponse
}.

(** [timedelta(hours=h)], in microseconds. *)
Definition timedelta_hours (h : Z) : Z := (h * 3600000000)%Z.

(** [ConsciousnessProposal.__init__]: [uuid] is the value drawn by
    [uuid.uuid4()] and [now] the reading of [datetime.now()]. *)
Definition new_proposal (uuid : string) (now : Z)
    (proposer_node title description proposal_type : string)
    (duration_hours : Z) : ConsciousnessProposal :=
  {| id := uuid;
     proposer_node := proposer_node;
     title := title;
     description := description;
     proposal_type := proposal_type;
     created_at := now;
     expires_at := (now + timedelta_hours duration_hours)%Z;
     status := DRAFT;
     echoes := ∅ |}.

(** [proposal.status = s] *)
Definition set_status (s : ProposalStatus) (p : ConsciousnessProposal) : ConsciousnessProposal :=
  {| id := id p;
     proposer_node := proposer_node p;
     title := title p;
     description := description p;
     proposal_type := proposal_type p;
     created_at := created_at p;
     expires_at := expires_at p;
     status := s;
     echoes := echoes p |}.

(** [is_expired]: [datetime.now() > self.expires_at]. *)
Definition is_expired (now : Z) (p : ConsciousnessProposal) : bool :=
  bool_decide (expires_at p < now)%Z.

(** [add_echo]: [self.echoes[node_id] = echo_response]. *)
Definition add_echo (node : string) (echo_response : EchoResponse)
    (p : ConsciousnessProposal) : ConsciousnessProposal :=
  {| id := id p;
     proposer_node := proposer_node p;
     title := title p;
     description := description p;
     proposal_type := proposal_type p;
     created_at := created_at p;
     expires_at := expires_at p;
     status := status p;
     echoes := <[node := echo_response]> (echoes p) |}.

(** *** The tally *)

(** [echo_counts]: a dictionary keyed by the four echo types in enumeration
    order, kept as an association list in that order. *)
Definition echo_counts_init : list (EchoType * nat) :=
  (λ t, (t, 0)) <$> all_echo_types.

(** [echo_counts[t] += 1] *)
Definition incr_count (t : EchoType) (counts : list (EchoType * nat)) : list (EchoType * nat) :=
  (λ tc : EchoType * nat, if decide (tc.1 = t) then (tc.1, S tc.2) else tc) <$> counts.

(** [echo_counts[t]] *)
Definition get_count (t : EchoType) (counts : list (EchoType * nat)) : nat :=
  default 0 (snd <$> head (filter (λ tc : EchoType * nat, tc.1 = t) counts)).

(** [for echo in self.echoes.values(): echo_counts[echo.echo_type] += 1] *)
Definition count_echoes (es : gmap string EchoResponse) : list (EchoType * nat) :=
  map_fold (λ _ echo counts, incr_count (echo_type echo) counts) echo_counts_init es.

(** [max(echo_counts, key=echo_counts.get)]: the first key whose count is
    maximal. *)
Fixpoint max_by_count (best : EchoType * nat) (l : list (EchoType * nat)) : EchoType * nat :=
  match l with
  | [] => best
  | x :: l' => max_by_count (if (best.2 <? x.2)%nat then x else best) l'
  end.

Definition dominant (counts : list (EchoType * nat)) : EchoType :=
  match counts with
  | [] => RESONANT
  | x :: l => (max_by_count x l).1
  end.

(** The dictionary returned by [calculate_resonance].  The two last keys are
    absent from the dictionary returned for a proposal without echoes. *)
Record Resonance : Type := {
  resonance_score : Q;
  consensus_strength : Q;
  dominant_pattern : string;
  echo_distribution : option (list (string * nat));
  convergence_achieved : option bool
}.

Definition Qnat (n : nat) : Q := inject_Z (Z.of_nat n).

Definition calculate_resonance (p : ConsciousnessProposal) : Resonance :=
  if bool_decide (echoes p = ∅) then
    {| resonance_score := 0;
       consensus_strength := 0;
       dominant_pattern := "none";
       echo_distribution := None;
       convergence_achieved := None |}
  else
    let echo_counts := count_echoes (echoes p) in
    let total_echoes := size (echoes p) in
    let resonance_score := (Qnat (get_count RESONANT echo_counts) / Qnat total_echoes * 100)%Q in
    let consensus_strength := (Qnat (max_list (echo_counts.*2)) / Qnat total_echoes)%Q in
    {| resonance_score := resonance_score;
       consensus_strength := (consensus_strength * 100)%Q;
       dominant_pattern := echo_value (dominant echo_counts);
       echo_distribution := Some ((λ tc : EchoType * nat, (echo_value tc.1, tc.2)) <$> echo_counts);
       convergence_achieved := Some (Qle_bool 0.8 consensus_strength) |}.

(** [EchoResponse.to_dict] and [ConsciousnessProposal.to_dict]: a snapshot
    of the fields, the enumerations by their string values ([isoformat] of a
    time is kept as the time itself). *)
Record EchoDict : Type := {
  d_node_id : string;
  d_proposal_id : string;
  d_echo_type : string;
  d_commentary : string;
  d_timestamp : Z
}.

Record ProposalDict : Type := {
  d_id : string;
  d_proposer_node : string;
  d_title : string;
  d_description : string;
  d_proposal_type : string;
  d_created_at : Z;
  d_expires_at : Z;
  d_status : string;
  d_echoes : gmap string EchoDict
}.

Definition echo_to_dict (r : EchoResponse) : EchoDict :=
  {| d_node_id := node_id r;
     d_proposal_id := proposal_id r;
     d_echo_type := echo_value (echo_type r);
     d_commentary := commentary r;
     d_timestamp := timestamp r |}.

Definition to_dict (p : ConsciousnessProposal) : ProposalDict :=
  {| d_id := id p;
     d_proposer_node := proposer_node p;
     d_title := title p;
     d_description := description p;
     d_proposal_type := proposal_type p;
     d_created_at := created_at p;
     d_expires_at := expires_at p;
     d_status := status_value (status p);
     d_echoes := echo_to_dict <$> echoes p |}.

(** *** The engine *)

(** [class EchoConsensusEngine].  [heap] holds the proposal objects, an
    address being an index into it; objects are never freed.
    [active_proposals] maps a proposal id to the address of its object and
    [proposal_history] lists addresses in the order of the appends. *)
Record EchoConsensusEngine : Type := {
  heap : list ConsciousnessProposal;
  active_proposals : gmap string nat;
  proposal_history : list nat
}.

(** [EchoConsensusEngine.__init__] *)
Definition new_engine : EchoConsensusEngine :=
  {| heap := []; active_proposals := ∅; proposal_history := [] |}.

(** An assignment to a field of the object at address [a]. *)
Definition store (a : nat) (p : ConsciousnessProposal) (e : EchoConsensusEngine) : EchoConsensusEngine :=
  {| heap := <[a := p]> (heap e);
     active_proposals := active_proposals e;
     proposal_history := proposal_history e |}.

(** [create_proposal]; it always uses the default [duration_hours = 24].
    Returns the reference to the new object and the engine. *)
Definition create_proposal (uuid : string) (now : Z)
    (proposer_node title description proposal_type : string)
    (e : EchoConsensusEngine) : nat * EchoConsensusEngine :=
  let proposal := new_proposal uuid now proposer_node title description proposal_type 24 in
  let a := length (heap e) in
  let proposal := set_status ACTIVE proposal in
  (a, {| heap := heap e ++ [proposal];
         active_proposals := <[id proposal := a]> (active_proposals e);
         proposal_history := proposal_history e |}).

(** [submit_echo].  [now] is the clock reading of [is_expired] and [ts] the
    one taken by [EchoResponse.__init__]. *)
Definition submit_echo (now ts : Z) (proposal_id node_id : string)
    (echo_type : EchoType) (commentary : string)
    (e : EchoConsensusEngine) : result bool * EchoConsensusEngine :=
  match active_proposals e !! proposal_id with
  | None => (Ok false, e)
  | Some a =>
    match heap e !! a with
    | None => (Raise DanglingReference, e)
    | Some proposal =>
      if is_expired now proposal then
        (Ok false, store a (set_status EXPIRED proposal) e)
      else
        let echo_response := new_echo_response node_id proposal_id echo_type commentary ts in
        let proposal := add_echo node_id echo_response proposal in
        let resonance := calculate_resonance proposal in
        match convergence_achieved resonance with
        | None => (Raise KeyError, store a proposal e)
        | Some true =>
          let proposal := set_status CONVERGED proposal in
          (Ok true,
           {| heap := <[a := proposal]> (heap e);
              active_proposals := delete proposal_id (active_proposals e);
              proposal_history := proposal_history e ++ [a] |})
        | Some false => (Ok true, store a proposal e)
        end
    end
  end.

(** [get_proposal_status] *)
Definition get_proposal_status (proposal_id : string)
    (e : EchoConsensusEngine) : option (ProposalDict * Resonance) :=
  a ← active_proposals e !! proposal_id;
  proposal ← heap e !! a;
  Some (to_dict proposal, calculate_resonance proposal).

(** [list_active_proposals].  The comprehension calls [is_expired], hence
    reads the clock, once per proposal: [now k] is the reading taken for the
    proposal stored under key [k].  It assigns nothing, so the engine comes
    back as it went in.  The result is listed in the order of the keys of the
    map, not in the insertion order of the Python dictionary. *)
Definition list_active_proposals (now : string → Z)
    (e : EchoConsensusEngine) : list (ProposalDict * Resonance) * EchoConsensusEngine :=
  (omap (λ ka : string * nat,
           proposal ← heap e !! ka.2;
           if is_expired (now ka.1) proposal then None
           else Some (to_dict proposal, calculate_resonance proposal))
        (map_to_list (active_proposals e)),
   e).

(** [proposal.add_echo(node, echo)] called by the holder of the reference
    [a] that [create_proposal] returned. *)
Definition add_echo_at (a : nat) (node : string) (echo_response : EchoResponse)
    (e : EchoConsensusEngine) : EchoConsensusEngine :=
  match heap e !! a with
  | Some proposal => store a (add_echo node echo_response proposal) e
  | None => e
  end.

(** The status of the object at address [a]. *)
Definition status_at (e : EchoConsensusEngine) (a : nat) : option ProposalStatus :=
  status <$> heap e !! a.

(** Sequences of engine calls. *)
Inductive Op : Type :=
  | CreateProposal (uuid : string) (now : Z) (proposer_node title description proposal_type : string)
  | SubmitEcho (now ts : Z) (proposal_id node_id : string) (echo_type : EchoType) (commentary : string).

Definition exec (e : EchoConsensusEngine) (op : Op) : EchoConsensusEngine :=
  match op with
  | CreateProposal uuid now proposer title description ptype =>
      (create_proposal uuid now proposer title description ptype e).2
  | SubmitEcho now ts pid node kind commentary =>
      (submit_echo now ts pid node kind commentary e).2
  end.

Definition run (ops : list Op) : EchoConsensusEngine := foldl exec new_engine ops.

(** What the engine keeps true: an address of the active set points at an
    object and is not in the history, no two keys of the active set share an
    object, and every object of the history has status [CONVERGED]. *)
Definition engine_inv (e : EchoConsensusEngine) : Prop :=
  (∀ k a, active_proposals e !! k = Some a → a < length (heap e) ∧ a ∉ proposal_history e)
  ∧ (∀ k1 k2 a, active_proposals e !! k1 = Some a → active_proposals e !! k2 = Some a → k1 = k2)
  ∧ Forall (λ a, status_at e a = Some CONVERGED) (proposal_history e).

(** No proposal of the active set holds a vote. *)
Definition no_votes (e : EchoConsensusEngine) : Prop :=
  map_Forall (λ _ a, echoes <$> heap e !! a = Some ∅) (active_proposals e).

(** The dictionary [calculate_resonance] returns for a proposal without
    echoes. *)
Definition empty_resonance : Resonance :=
  {| resonance_score := 0;
     consensus_strength := 0;
     dominant_pattern := "none";
     echo_distribution := None;
     convergence_achieved := None |}.

(** What engine calls keep true of the objects: a proposal of the active
    set is filed under its own id, is [ACTIVE] or [EXPIRED] and has no vote;
    a proposal of the history is [CONVERGED] with exactly one vote; the
    history lists no proposal twice; no object at all is in another status
    or holds more than one vote. *)
Definition engine_facts (e : EchoConsensusEngine) : Prop :=
  map_Forall (λ k a, ∃ p, heap e !! a = Some p ∧ id p = k
                          ∧ (status p = ACTIVE ∨ status p = EXPIRED)
                          ∧ echoes p = ∅) (active_proposals e)
  ∧ Forall (λ a, ∃ p, heap e !! a = Some p ∧ status p = CONVERGED
                      ∧ size (echoes p) = 1%nat) (proposal_history e)
  ∧ NoDup (proposal_history e)
  ∧ Forall (λ p, (status p = ACTIVE ∨ status p = EXPIRED ∨ status p = CONVERGED)
                 ∧ (size (echoes p) ≤ 1)%nat) (heap e).

(** The number of votes of kind [t] in a vote map, counted directly: the
    yardstick for the counts of the tally. *)
Definition votes_of_kind (t : EchoType) (es : gmap string EchoResponse) : nat :=
  size (filter (λ kv : string * EchoResponse, echo_type kv.2 = t) es).

(** The place of a kind in the enumeration. *)
Definition kind_rank (t : EchoType) : nat :=
  match t with
  | RESONANT => 0
  | DISSONANT => 1
  | INQUIRY => 2
  | ABSTAIN => 3
  end.

(** Two proposals with votes, as the holder of a proposal object can make
    them through [add_echo]: two resonant votes and a dissonant one, and a
    tie between a dissonant and a resonant vote. *)
Definition two_to_one : ConsciousnessProposal :=
  add_echo "human" (new_echo_response "human" "p" DISSONANT "" 3)
    (add_echo "gemini" (new_echo_response "gemini" "p" RESONANT "" 2)
       (add_echo "chatgpt" (new_echo_response "chatgpt" "p" RESONANT "" 1)
          (new_proposal "p" 0 "claude" "t" "d" "general" 24))).

Definition one_to_one : ConsciousnessProposal :=
  add_echo "gemini" (new_echo_response "gemini" "p" RESONANT "" 2)
    (add_echo "chatgpt" (new_echo_response "chatgpt" "p" DISSONANT "" 1)
       (new_proposal "p" 0 "claude" "t" "d" "general" 24)).

End Proposal.

(** ** security/encryption.py *)

Module Encryption.

(** Python [bytes]; Python [str] is [string]: text that [str.encode] accepts
    (no lone surrogate), which covers all that [json.dumps] produces. *)
Definition bytes : Type := list Byte.byte.

#[global] Instance byte_eq_decision : EqDecision Byte.byte := Byte.byte_eq_dec.

(** The calls that [encryption.py] and [echo_bus.py] make into libraries
    that are no part of the repository: the [str]/[bytes] codecs, [base64],
    [json], and [cryptography]'s key agreement, key derivation and AES-GCM.
    A call that can raise returns a [result]. *)
Class Library : Type := {
  (** [s.encode('utf-8')] and [b.decode('utf-8')] *)
  str_encode : string → bytes;
  bytes_decode : bytes → result string;
  (** [base64.b64encode(b)] and [base64.b64decode(s)] *)
  b64encode : bytes → bytes;
  b64decode : string → result bytes;
  (** [Cipher(algorithms.AES(key), modes.GCM(iv)).encryptor()], then
      [update(m) + finalize()] and [tag]: the ciphertext and the tag. *)
  gcm_encrypt : bytes → bytes → bytes → result (bytes * bytes);
  (** [Cipher(algorithms.AES(key), modes.GCM(iv, tag)).decryptor()], then
      [update(c) + finalize()]. *)
  gcm_decrypt : bytes → bytes → bytes → bytes → result bytes;
  (** Elliptic-curve keys, [serialization.load_pem_public_key],
      [private_key.exchange(ec.ECDH(), peer)] and
      [HKDF(SHA256, length=32, salt=None, info=b'consciousness_communication').derive]. *)
  ec_private_key : Type;
  ec_public_key : Type;
  load_pem_public_key : bytes → result ec_public_key;
  ecdh_exchange : ec_private_key → ec_public_key → result bytes;
  hkdf_derive : bytes → bytes;
  (** [json.loads(s)] and [value[key]] *)
  json : Type;
  json_loads : string → result json;
  json_getitem : json → string → result json
}.

(** What the code relies on from these libraries: their documented
    contracts. *)
Class LibrarySpec (L : Library) : Prop := {
  (** Decoding the UTF-8 encoding of a text gives the text back. *)
  utf8_round_trip : ∀ s, bytes_decode (str_encode s) = Ok s;
  (** A base64 encoding is ASCII, hence decodes as text, and [b64decode]
      inverts it. *)
  b64_round_trip : ∀ b, ∃ s, bytes_decode (b64encode b) = Ok s ∧ b64decode s = Ok b;
  (** AES-GCM encrypts under a 256-bit key and a 96-bit nonce. *)
  gcm_encrypt_returns : ∀ key iv m,
    length key = 32 → length iv = 12 → ∃ c tag, gcm_encrypt key iv m = Ok (c, tag);
  (** Decryption under the same key and nonce, with the tag that encryption
      produced, verifies and returns the plaintext. *)
  gcm_round_trip : ∀ key iv m c tag,
    gcm_encrypt key iv m = Ok (c, tag) → gcm_decrypt key iv tag c = Ok m;
  (** HKDF with [length=32] returns 32 bytes. *)
  hkdf_length : ∀ secret, length (hkdf_derive secret) = 32
}.

Section WithLibrary.
Context {L : Library}.

(** [class ConsciousnessEncryption] *)
Record ConsciousnessEncryption : Type := {
  private_key : ec_private_key;
  public_key : ec_public_key
}.

(** [derive_shared_key] *)
Definition derive_shared_key (self : ConsciousnessEncryption)
    (peer_public_key_bytes : bytes) : result bytes :=
  peer_public_key ← load_pem_public_key peer_public_key_bytes;
  shared_key ← ecdh_exchange (private_key self) peer_public_key;
  Ok (hkdf_derive shared_key).

(** [encrypt_message]: [iv] is the value returned by [os.urandom(12)]. *)
Definition encrypt_message (iv : bytes) (message : string)
    (shared_key : bytes) : result (gmap string string) :=
  let message_bytes := str_encode message in
  sealed ← gcm_encrypt shared_key iv message_bytes;
  ciphertext_text ← bytes_decode (b64encode sealed.1);
  iv_text ← bytes_decode (b64encode iv);
  tag_text ← bytes_decode (b64encode sealed.2);
  Ok (<["ciphertext" := ciphertext_text]>
        (<["iv" := iv_text]> (<["tag" := tag_text]> ∅))).

(** [decrypt_message] *)
Definition decrypt_message (encrypted_data : gmap string string)
    (shared_key : bytes) : result string :=
  ciphertext_text ← of_option (encrypted_data !! "ciphertext") KeyError;
  ciphertext ← b64decode ciphertext_text;
  iv_text ← of_option (encrypted_data !! "iv") KeyError;
  iv ← b64decode iv_text;
  tag_text ← of_option (encrypted_data !! "tag") KeyError;
  tag ← b64decode tag_text;
  message_bytes ← gcm_decrypt shared_key iv tag ciphertext;
  bytes_decode message_bytes.

End WithLibrary.

(** [private_key.public_key()], the one further call of
    [generate_key_pair]. *)
Class KeyLibrary (L : Library) : Type := {
  ec_public_of : ec_private_key → ec_public_key
}.

(** Diffie-Hellman on one curve: an exchange between two key pairs goes
    through and gives the same secret from either side. *)
Class KeyLibrarySpec (L : Library) (K : KeyLibrary L) : Prop := {
  ecdh_symmetric : ∀ sk1 sk2,
    ∃ secret, ecdh_exchange sk1 (ec_public_of sk2) = Ok secret
              ∧ ecdh_exchange sk2 (ec_public_of sk1) = Ok secret
}.

Section WithKeyLibrary.
Context {L : Library} {K : KeyLibrary L}.

(** [ConsciousnessEncryption.__init__] with [generate_key_pair]: [sk] is
    the key drawn by [ec.generate_private_key(ec.SECP256R1())]. *)
Definition generate_key_pair (sk : ec_private_key) : ConsciousnessEncryption :=
  {| private_key := sk; public_key := ec_public_of sk |}.

End WithKeyLibrary.

End Encryption.

(** ** messaging/echo_bus.py *)

Module EchoBus.
Import Encryption.

Section WithLibrary.
Context {L : Library}.

(** [class EchoBus].  [peer_keys] is a dictionary that the inbox callback
    iterates, so it is kept in insertion order; the transport connection
    [nc] is left out. *)
Record EchoBus : Type := {
  node_id : string;
  encryption : ConsciousnessEncryption;
  subscribers : gmap string (json → result ());
  peer_keys : list (string * bytes);
  connected : bool
}.

(** What a run of the inbox callback does that can be seen from outside:
    it calls [decrypt_message] with the key derived for a peer, and it calls
    the registered handler. *)
Inductive event : Type :=
  | DecryptAttempt (sender_id : string)
  | Dispatch (message : json).

(** The body of the [try] inside the loop, for one entry of [peer_keys]:
    the events it produces and how it ends. *)
Definition attempt (self : EchoBus) (data : gmap string string)
    (sender_id : string) (public_key : bytes) : list event * result () :=
  match derive_shared_key (encryption self) public_key with
  | Raise err => ([], Raise err)
  | Ok shared_key =>
    match (decrypted_msg ← decrypt_message data shared_key;
           message ← json_loads decrypted_msg;
           _ ← json_getitem message "from";
           _ ← json_getitem message "payload";
           Ok message) with
    | Raise err => ([DecryptAttempt sender_id], Raise err)
    | Ok message =>
      match subscribers self !! "message_handler" with
      | Some handler => ([DecryptAttempt sender_id; Dispatch message], handler message)
      | None => ([DecryptAttempt sender_id], Ok ())
      end
    end
  end.

(** [for sender_id, public_key in self.peer_keys.items()]: [break] after an
    attempt that went through, [continue] after one that raised. *)
Fixpoint try_peer_keys (self : EchoBus) (data : gmap string string)
    (items : list (string * bytes)) : list event :=
  match items with
  | [] => []
  | (sender_id, public_key) :: rest =>
    match attempt self data sender_id public_key with
    | (events, Ok _) => events
    | (events, Raise _) => events ++ try_peer_keys self data rest
    end
  end.

(** [_handle_message], from the JSON object [data] of the delivered
    payload on. *)
Definition _handle_message (self : EchoBus) (data : gmap string string) : list event :=
  if decide (is_Some (data !! "ciphertext")) then
    try_peer_keys self data (peer_keys self)
  else [].

(** The peers whose key the callback used for a decryption, in order. *)
Definition decrypt_attempts (events : list event) : list string :=
  omap (λ ev, match ev with DecryptAttempt s => Some s | Dispatch _ => None end) events.

(** The events of the attempts on the entries [items], one after the other. *)
Definition attempts_events (self : EchoBus) (data : gmap string string)
    (items : list (string * bytes)) : list event :=
  concat ((λ sp : string * bytes, (attempt self data sp.1 sp.2).1) <$> items).

(** [EchoBus.__init__]: [enc] is the [ConsciousnessEncryption()] it
    makes. *)
Definition new_bus (node_id : string) (enc : ConsciousnessEncryption) : EchoBus :=
  {| node_id := node_id;
     encryption := enc;
     subscribers := ∅;
     peer_keys := [];
     connected := false |}.

(** [d[key]] and [key in d] on a dictionary kept in insertion order. *)
Fixpoint dict_get (key : string) (d : list (string * bytes)) : option bytes :=
  match d with
  | [] => None
  | (k, v) :: rest => if decide (k = key) then Some v else dict_get key rest
  end.

(** [d[key] = value]: a key that is there keeps its place, a new key goes
    to the end. *)
Fixpoint dict_set (key : string) (value : bytes) (d : list (string * bytes))
    : list (string * bytes) :=
  match d with
  | [] => [(key, value)]
  | (k, v) :: rest =>
    if decide (k = key) then (k, value) :: rest else (k, v) :: dict_set key value rest
  end.

(** [self.peer_keys = d] *)
Definition set_peer_keys (d : list (string * bytes)) (self : EchoBus) : EchoBus :=
  {| node_id := node_id self;
     encryption := encryption self;
     subscribers := subscribers self;
     peer_keys := d;
     connected := connected self |}.

(** [_handle_broadcast], from the JSON object [data] of the delivered
    payload on, for objects whose values are strings.  An exception inside
    it is caught and changes nothing.  The result is [None] in the one case
    this directory cannot hold: an announcement without [node_id] but with a
    [public_key], which Python files under the key [None]. *)
Definition _handle_broadcast (self : EchoBus) (data : gmap string string) : option EchoBus :=
  if decide (data !! "type" = Some "consciousness_announcement") then
    match data !! "node_id" with
    | Some node =>
      if decide (node ≠ node_id self) then
        match data !! "public_key" with
        | Some public_key =>
            Some (set_peer_keys (dict_set node (str_encode public_key) (peer_keys self)) self)
        | None => Some self
        end
      else Some self
    | None =>
      match data !! "public_key" with
      | Some _ => None
      | None => Some self
      end
    end
  else Some self.




End WithLibrary.

(** The calls of [send_secure_message] into [json] and into the NATS
    connection. *)
Class Transport (L : Library) : Type := {
  (** [json.dumps] of the dictionary with the keys [from], [to],
      [timestamp] (the [isoformat] of the clock reading) and [payload] *)
  dumps_full_message : string → string → Z → json → string;
  (** [json.dumps(encrypted_data)] *)
  dumps_envelope : gmap string string → string;
  (** [await self.nc.publish(subject, payload)]; it raises when there is no
      open connection *)
  nc_publish : string → bytes → result ()
}.

Section WithTransport.
Context {L : Library} {T : Transport L}.

(** What the transport was handed and took. *)
Inductive publication : Type :=
  | Publish (subject : string) (payload : bytes).

(** [send_secure_message]: [now] is the reading of [datetime.now()] and
    [iv] the nonce drawn by [encrypt_message]. *)
Definition send_secure_message (now : Z) (iv : bytes) (self : EchoBus)
    (target_node : string) (message : json) : bool * list publication :=
  match dict_get target_node (peer_keys self) with
  | None => (false, [])
  | Some public_key =>
    match (shared_key ← derive_shared_key (encryption self) public_key;
           encrypted_data ←
             encrypt_message iv
               (dumps_full_message (node_id self) target_node now message) shared_key;
           let subject := "consciousness." +:+ target_node in
           let payload := str_encode (dumps_envelope encrypted_data) in
           _ ← nc_publish subject payload;
           Ok (Publish subject payload)) with
    | Ok sent => (true, [sent])
    | Raise _ => (false, [])
    end
  end.

End WithTransport.

End EchoBus.

(** ** A small instance of the library interface

    It serves to run the model on concrete inputs; it has the shape of the
    real libraries (a tag that depends on the key and the nonce, checked
    before the plaintext is released) and none of their cryptography. *)

Module Toy.
Import Encryption.

Definition toy_gcm_encrypt (key iv m : bytes) : result (bytes * bytes) :=
  if decide (length key = 32) then Ok (m, key ++ iv) else Raise ValueError.

Definition toy_gcm_decrypt (key iv tag c : bytes) : result bytes :=
  if decide (length key = 32) then
    if decide (tag = key ++ iv) then Ok c else Raise InvalidTag
  else Raise ValueError.

Definition toy_hkdf (secret : bytes) : bytes :=
  take 32 (secret ++ replicate 32 Byte.x00).

#[global] Instance toy_library : Library := {|
  str_encode := String.list_byte_of_string;
  bytes_decode := λ b, Ok (String.string_of_list_byte b);
  b64encode := λ b, b;
  b64decode := λ s, Ok (String.list_byte_of_string s);
  gcm_encrypt := toy_gcm_encrypt;
  gcm_decrypt := toy_gcm_decrypt;
  ec_private_key := bytes;
  ec_public_key := bytes;
  load_pem_public_key := λ b, Ok b;
  ecdh_exchange := λ sk pk, Ok (sk ++ pk);
  hkdf_derive := toy_hkdf;
  json := string;
  json_loads := λ s, Ok s;
  json_getitem := λ j _, Ok j
|}.

(** A 256-bit key and a 96-bit nonce. *)
Definition key_a : bytes := replicate 32 Byte.x41.
Definition nonce : bytes := replicate 12 Byte.x07.

(** The node carol knows alice and bob, in this order, and has a handler
    that accepts every message. *)
Definition carol : EchoBus.EchoBus :=
  {| EchoBus.node_id := "carol";
     EchoBus.encryption := {| private_key := [Byte.x43]; public_key := [Byte.x43] |};
     EchoBus.subscribers := {["message_handler" := λ _, Ok ()]};
     EchoBus.peer_keys := [("alice", [Byte.x41]); ("bob", [Byte.x42])];
     EchoBus.connected := true |}.

(** The session keys carol derives for alice and for bob. *)
Definition carol_alice_key : bytes := toy_hkdf ([Byte.x43] ++ [Byte.x41]).
Definition carol_bob_key : bytes := toy_hkdf ([Byte.x43] ++ [Byte.x42]).

(** The envelope that [encrypt_message] makes of the text ["hello carol"]
    under the key carol shares with bob. *)
Definition envelope_from_bob : gmap string string :=
  <["ciphertext" := "hello carol"]>
    (<["iv" := String.string_of_list_byte nonce]>
       (<["tag" := String.string_of_list_byte (carol_bob_key ++ nonce)]> ∅)).

(** A transport that takes every payload, with a serialisation that is
    good enough to tell payloads apart. *)
#[global] Instance toy_transport : EchoBus.Transport toy_library := {|
  EchoBus.dumps_full_message := λ sender target _ payload,
    sender +:+ ">" +:+ target +:+ ":" +:+ payload;
  EchoBus.dumps_envelope := λ envelope, default "" (envelope !! "ciphertext");
  EchoBus.nc_publish := λ _ _, Ok ()
|}.

(** The payload of an announcement, as [announce_consciousness] builds it
    (without the two fields that [_handle_broadcast] does not read). *)
Definition announcement (node public_key : string) : gmap string string :=
  <["type" := "consciousness_announcement"]>
    (<["node_id" := node]> (<["public_key" := public_key]> ∅)).

(** A new bus for carol. *)
Definition carol_new : EchoBus.EchoBus :=
  EchoBus.new_bus "carol" {| private_key := [Byte.x43]; public_key := [Byte.x43] |}.

(** A second instance, with a key agreement that is symmetric: a private
    key is a number, the public key is the same number, its serialisation
    that many bytes, and the shared secret depends on the sum of the two
    private keys. *)
Definition dh_library : Library := {|
  str_encode := String.list_byte_of_string;
  bytes_decode := λ b, Ok (String.string_of_list_byte b);
  b64encode := λ b, b;
  b64decode := λ s, Ok (String.list_byte_of_string s);
  gcm_encrypt := toy_gcm_encrypt;
  gcm_decrypt := toy_gcm_decrypt;
  ec_private_key := nat;
  ec_public_key := nat;
  load_pem_public_key := λ b, Ok (length b);
  ecdh_exchange := λ sk pk, Ok (replicate (sk + pk) Byte.x01);
  hkdf_derive := toy_hkdf;
  json := string;
  json_loads := λ s, Ok s;
  json_getitem := λ j _, Ok j
|}.

Definition dh_keys : KeyLibrary dh_library :=
  Build_KeyLibrary dh_library (λ sk : nat, sk).

End Toy.

(** * Properties of the consensus engine *)

Section ProposalFacts.
Import Proposal.

Implicit Types (p : ConsciousnessProposal) (e : EchoConsensusEngine).
Implicit Types (r : EchoResponse) (a : nat).

(** *** Field access after the assignments *)

Lemma echoes_add_echo node r p : echoes (add_echo node r p) = <[node := r]> (echoes p).
Proof. reflexivity. Qed.

Lemma echoes_set_status s p : echoes (set_status s p) = echoes p.
Proof. reflexivity. Qed.

Lemma status_set_status s p : status (set_status s p) = s.
Proof. reflexivity. Qed.

Lemma is_expired_false now p : is_expired now p = false ↔ (now ≤ expires_at p)%Z.
Proof.
  unfold is_expired. rewrite bool_decide_eq_false. lia.
Qed.

Lemma is_expired_true now p : is_expired now p = true ↔ (expires_at p < now)%Z.
Proof.
  unfold is_expired. by rewrite bool_decide_eq_true.
Qed.

(** The tally ignores the status. *)
Lemma calculate_resonance_set_status s p :
  calculate_resonance (set_status s p) = calculate_resonance p.
Proof. reflexivity. Qed.

(** *** The tally of a proposal with echoes *)

(** With at least one echo the dictionary has its [convergence_achieved]
    key, so [submit_echo] never raises [KeyError] when it reads it. *)
Lemma convergence_key_present node r p :
  is_Some (convergence_achieved (calculate_resonance (add_echo node r p))).
Proof.
  unfold calculate_resonance. rewrite echoes_add_echo.
  rewrite bool_decide_eq_false_2 by apply insert_non_empty.
  simpl. eauto.
Qed.

(** The counts of a single echo: one for its kind, none for the others. *)
Lemma count_echoes_singleton node r :
  count_echoes {[node := r]} = incr_count (echo_type r) echo_counts_init.
Proof.
  unfold count_echoes. by rewrite map_fold_singleton.
Qed.

(** The tally of the first echo: whatever its kind, it is the whole vote. *)
Lemma calculate_resonance_first_echo node r p :
  echoes p = ∅ →
  consensus_strength (calculate_resonance (add_echo node r p)) = 100%Q
  ∧ convergence_achieved (calculate_resonance (add_echo node r p)) = Some true
  ∧ dominant_pattern (calculate_resonance (add_echo node r p)) = echo_value (echo_type r)
  ∧ resonance_score (calculate_resonance (add_echo node r p))
    = (if decide (echo_type r = RESONANT) then 100 else 0)%Q.
Proof.
  intros Hempty. unfold calculate_resonance.
  rewrite echoes_add_echo, Hempty, insert_empty.
  rewrite bool_decide_eq_false_2 by apply map_non_empty_singleton.
  cbv zeta. rewrite count_echoes_singleton, map_size_singleton.
  destruct (echo_type r); vm_compute; done.
Qed.

(** *** The counts, in general *)

(** The counts are those of the four kinds, in enumeration order, and they
    add up to the number of votes. *)
Lemma count_echoes_total (es : gmap string EchoResponse) :
  ∃ c1 c2 c3 c4 : nat,
    count_echoes es = [(RESONANT, c1); (DISSONANT, c2); (INQUIRY, c3); (ABSTAIN, c4)]
    ∧ c1 + c2 + c3 + c4 = size es.
Proof.
  unfold count_echoes.
  apply (map_fold_weak_ind (λ counts (m : gmap string EchoResponse),
    ∃ c1 c2 c3 c4 : nat,
      counts = [(RESONANT, c1); (DISSONANT, c2); (INQUIRY, c3); (ABSTAIN, c4)]
      ∧ c1 + c2 + c3 + c4 = size m)).
  - exists 0, 0, 0, 0. by rewrite map_size_empty.
  - intros node r m counts Hfresh (c1 & c2 & c3 & c4 & -> & Hsum).
    rewrite map_size_insert_None by done.
    destruct (echo_type r); cbn;
      [exists (S c1), c2, c3, c4 | exists c1, (S c2), c3, c4
      | exists c1, c2, (S c3), c4 | exists c1, c2, c3, (S c4)];
      (split; [reflexivity | lia]).
Qed.

Lemma Qnat_ratio_bounds (c t : nat) :
  (c ≤ t)%nat → (0 < t)%nat →
  (0 <= Qnat c / Qnat t * 100)%Q ∧ (Qnat c / Qnat t * 100 <= 100)%Q.
Proof.
  intros Hle Hpos. destruct t as [| t]; [lia |].
  unfold Qnat, Qdiv, Qmult, Qinv, Qle, inject_Z.
  change (Z.of_nat (S t)) with (Z.pos (Pos.of_succ_nat t)). cbn [Qnum Qden].
  rewrite Pos.mul_1_l, Pos.mul_1_r. split; lia.
Qed.

(** X1. The two percentages of a tally over at least one vote are between
    0 and 100. *)
Lemma tally_bounds p :
  echoes p ≠ ∅ →
  (0 <= resonance_score (calculate_resonance p))%Q
  ∧ (resonance_score (calculate_resonance p) <= 100)%Q
  ∧ (0 <= consensus_strength (calculate_resonance p))%Q
  ∧ (consensus_strength (calculate_resonance p) <= 100)%Q.
Proof.
  intros Hne. unfold calculate_resonance.
  rewrite bool_decide_eq_false_2 by done. cbn [resonance_score consensus_strength].
  destruct (count_echoes_total (echoes p)) as (c1 & c2 & c3 & c4 & -> & Hsum).
  assert (Hpos : (0 < size (echoes p))%nat).
  { destruct (size (echoes p)) eqn:Hsz; [| lia]. by apply map_size_empty_inv in Hsz. }
  change (get_count RESONANT _) with c1.
  change (max_list _) with (c1 `max` (c2 `max` (c3 `max` (c4 `max` 0)))).
  destruct (Qnat_ratio_bounds c1 (size (echoes p))) as [? ?]; [lia | done |].
  destruct (Qnat_ratio_bounds (c1 `max` (c2 `max` (c3 `max` (c4 `max` 0)))) (size (echoes p)))
    as [? ?]; [lia | done |].
  done.
Qed.

Lemma tally_bounds_witness :
  echoes (add_echo "gemini" (new_echo_response "gemini" "p" DISSONANT "" 1)
            (new_proposal "p" 0 "claude" "t" "d" "general" 24)) ≠ ∅
  ∧ (consensus_strength
       (calculate_resonance
          (add_echo "gemini" (new_echo_response "gemini" "p" DISSONANT "" 1)
             (new_proposal "p" 0 "claude" "t" "d" "general" 24))) <= 100)%Q.
Proof.
  assert (Hne : echoes (add_echo "gemini" (new_echo_response "gemini" "p" DISSONANT "" 1)
                          (new_proposal "p" 0 "claude" "t" "d" "general" 24)) ≠ ∅)
    by (vm_compute; discriminate).
  split; [exact Hne |]. apply (tally_bounds _ Hne).
Defined.

(** X4. The convergence flag is the 80% threshold on the largest count:
    [max / total >= 0.8] says [4 * total ≤ 5 * max]. *)
Lemma convergence_threshold p :
  echoes p ≠ ∅ →
  convergence_achieved (calculate_resonance p)
  = Some (bool_decide (4 * size (echoes p) ≤ 5 * max_list ((count_echoes (echoes p)).*2))%nat).
Proof.
  intros Hne. unfold calculate_resonance.
  rewrite bool_decide_eq_false_2 by done. cbn [convergence_achieved]. f_equal.
  assert (Hpos : (0 < size (echoes p))%nat).
  { destruct (size (echoes p)) eqn:Hsz; [| lia]. by apply map_size_empty_inv in Hsz. }
  generalize (max_list ((count_echoes (echoes p)).*2)). intros m.
  destruct (size (echoes p)) as [| t]; [lia |].
  apply eq_true_iff_eq. rewrite Qle_bool_iff, bool_decide_eq_true.
  unfold Qnat, Qdiv, Qmult, Qinv, Qle, inject_Z.
  change (Z.of_nat (S t)) with (Z.pos (Pos.of_succ_nat t)). cbn [Qnum Qden].
  rewrite Pos.mul_1_l. lia.
Qed.

(** Two resonant votes and a dissonant one: 2/3 is under the threshold. *)
Lemma convergence_threshold_witness :
  convergence_achieved
    (calculate_resonance
       (add_echo "human" (new_echo_response "human" "p" DISSONANT "" 3)
          (add_echo "gemini" (new_echo_response "gemini" "p" RESONANT "" 2)
             (add_echo "chatgpt" (new_echo_response "chatgpt" "p" RESONANT "" 1)
                (new_proposal "p" 0 "claude" "t" "d" "general" 24)))))
  = Some false.
Proof.
  rewrite convergence_threshold by (vm_compute; discriminate).
  vm_compute. reflexivity.
Defined.

(** *** [get_proposal_status] and [submit_echo], branch by branch *)

(** A proposal that is not in the active set has no status to report. *)
Lemma get_proposal_status_gone pid e :
  active_proposals e !! pid = None → get_proposal_status pid e = None.
Proof. intros Hnone. unfold get_proposal_status. by rewrite Hnone. Qed.


Lemma submit_echo_not_found now ts pid node kind comm e :
  active_proposals e !! pid = None →
  submit_echo now ts pid node kind comm e = (Ok false, e).
Proof. intros Hnone. unfold submit_echo. by rewrite Hnone. Qed.

Lemma submit_echo_expired now ts pid node kind comm e a p :
  active_proposals e !! pid = Some a →
  heap e !! a = Some p →
  is_expired now p = true →
  submit_echo now ts pid node kind comm e = (Ok false, store a (set_status EXPIRED p) e).
Proof. intros Ha Hp Hexp. unfold submit_echo. by rewrite Ha, Hp, Hexp. Qed.

Lemma submit_echo_unexpired now ts pid node kind comm e a p :
  active_proposals e !! pid = Some a →
  heap e !! a = Some p →
  is_expired now p = false →
  let p1 := add_echo node (new_echo_response node pid kind comm ts) p in
  (convergence_achieved (calculate_resonance p1) = Some true
   ∧ submit_echo now ts pid node kind comm e =
       (Ok true,
        {| heap := <[a := set_status CONVERGED p1]> (heap e);
           active_proposals := delete pid (active_proposals e);
           proposal_history := proposal_history e ++ [a] |}))
  ∨ (convergence_achieved (calculate_resonance p1) = Some false
     ∧ submit_echo now ts pid node kind comm e = (Ok true, store a p1 e)).
Proof.
  intros Ha Hp Hexp p1. unfold submit_echo. rewrite Ha, Hp, Hexp. fold p1.
  destruct (convergence_key_present node (new_echo_response node pid kind comm ts) p)
    as [[] Hb]; fold p1 in Hb; rewrite Hb; [left | right]; done.
Qed.

(** *** The tally without echoes *)

(** C5. For a proposal whose vote map is empty the tally reports
    [resonance_score = 0] and [consensus_strength = 0], and it reports no
    convergence: the dictionary it returns has no [convergence_achieved] key
    at all, so in particular the flag is not true. *)
Theorem empty_tally p :
  echoes p = ∅ →
  resonance_score (calculate_resonance p) = 0%Q
  ∧ consensus_strength (calculate_resonance p) = 0%Q
  ∧ convergence_achieved (calculate_resonance p) = None
  ∧ convergence_achieved (calculate_resonance p) ≠ Some true.
Proof.
  intros Hempty. unfold calculate_resonance.
  rewrite bool_decide_eq_true_2 by done. done.
Qed.

Lemma empty_tally_witness :
  echoes (new_proposal "p" 0 "claude" "t" "d" "general" 24) = ∅
  ∧ resonance_score (calculate_resonance (new_proposal "p" 0 "claude" "t" "d" "general" 24)) = 0%Q
  ∧ consensus_strength (calculate_resonance (new_proposal "p" 0 "claude" "t" "d" "general" 24)) = 0%Q.
Proof.
  split; [reflexivity |].
  pose proof (empty_tally (new_proposal "p" 0 "claude" "t" "d" "general" 24) eq_refl) as H.
  split; apply H.
Defined.

(** *** The first vote *)

(** C6. An active, unexpired proposal without votes converges on its first
    vote, whatever the echo kind: the call succeeds, the tally of the
    proposal is [consensus_strength = 100] with convergence achieved, its
    status is [CONVERGED], and it has left the active set for the history. *)
Theorem first_echo_converges now ts pid node kind comm e a p :
  active_proposals e !! pid = Some a →
  heap e !! a = Some p →
  echoes p = ∅ →
  is_expired now p = false →
  ∃ e' p',
    submit_echo now ts pid node kind comm e = (Ok true, e')
    ∧ heap e' !! a = Some p'
    ∧ echoes p' = {[node := new_echo_response node pid kind comm ts]}
    ∧ consensus_strength (calculate_resonance p') = 100%Q
    ∧ convergence_achieved (calculate_resonance p') = Some true
    ∧ status p' = CONVERGED
    ∧ active_proposals e' !! pid = None
    ∧ proposal_history e' = proposal_history e ++ [a].
Proof.
  intros Ha Hp Hempty Hexp.
  destruct (calculate_resonance_first_echo node (new_echo_response node pid kind comm ts) p Hempty)
    as (Hstrength & Hconv & _ & _).
  destruct (submit_echo_unexpired now ts pid node kind comm e a p Ha Hp Hexp)
    as [[_ Hrun] | [Hno _]]; [| congruence].
  eexists _, _. split; [exact Hrun |]. cbn [heap active_proposals proposal_history].
  split.
  { apply list_lookup_insert_eq. by eapply lookup_lt_Some. }
  rewrite calculate_resonance_set_status, echoes_set_status, echoes_add_echo, Hempty, insert_empty.
  repeat split; try done. apply lookup_delete_eq.
Qed.

Lemma first_echo_converges_witness :
  ∃ e' p',
    submit_echo 5 6 "p" "gemini" ABSTAIN "c"
      (create_proposal "p" 0 "claude" "t" "d" "general" new_engine).2 = (Ok true, e')
    ∧ heap e' !! 0%nat = Some p'
    ∧ status p' = CONVERGED
    ∧ active_proposals e' !! "p" = None
    ∧ proposal_history e' = [0%nat].
Proof.
  destruct (first_echo_converges 5 6 "p" "gemini" ABSTAIN "c"
              (create_proposal "p" 0 "claude" "t" "d" "general" new_engine).2 0
              (set_status ACTIVE (new_proposal "p" 0 "claude" "t" "d" "general" 24)))
    as (e' & p' & Hrun & Hp & _ & _ & _ & Hst & Hact & Hhist);
    [reflexivity | reflexivity | reflexivity | reflexivity |].
  exists e', p'. repeat split; assumption.
Defined.

(** *** A second vote of the same node *)

(** [add_echo] for a node that has voted: the entry is replaced, the other
    entries and the number of entries stay. *)
Lemma add_echo_overwrites node r old p :
  echoes p !! node = Some old →
  echoes (add_echo node r p) !! node = Some r
  ∧ (∀ other, other ≠ node → echoes (add_echo node r p) !! other = echoes p !! other)
  ∧ size (echoes (add_echo node r p)) = size (echoes p).
Proof.
  intros Hold. rewrite echoes_add_echo. split; [apply lookup_insert_eq |].
  split; [intros other Hne; by apply lookup_insert_ne |].
  by eapply map_size_insert_Some.
Qed.

(** C7. On an active, unexpired proposal, a vote of a node that already
    has one succeeds and replaces that node's echo response by the new one;
    the votes of the other nodes and the number of votes are unchanged.
    (The proposal object is followed by its address [a]: the same call may
    move it to the history.) *)
Theorem revote_replaces now ts pid node kind comm e a p old :
  active_proposals e !! pid = Some a →
  heap e !! a = Some p →
  is_expired now p = false →
  echoes p !! node = Some old →
  ∃ e' p',
    submit_echo now ts pid node kind comm e = (Ok true, e')
    ∧ heap e' !! a = Some p'
    ∧ echoes p' = <[node := new_echo_response node pid kind comm ts]> (echoes p)
    ∧ echoes p' !! node = Some (new_echo_response node pid kind comm ts)
    ∧ (∀ other, other ≠ node → echoes p' !! other = echoes p !! other)
    ∧ size (echoes p') = size (echoes p).
Proof.
  intros Ha Hp Hexp Hold.
  pose proof (lookup_lt_Some _ _ _ Hp) as Hlt.
  destruct (add_echo_overwrites node (new_echo_response node pid kind comm ts) old p Hold)
    as (Hnew & Hothers & Hsize).
  destruct (submit_echo_unexpired now ts pid node kind comm e a p Ha Hp Hexp)
    as [[_ Hrun] | [_ Hrun]];
    eexists _, _; (split; [exact Hrun |]); cbn [heap store];
    (split; [by apply list_lookup_insert_eq |]);
    rewrite ?echoes_set_status; done.
Qed.

(** The witness: the holder of the reference returned by [create_proposal]
    records a dissonant and a resonant echo through [add_echo], after which
    the proposal is active with two votes; the first node then votes again
    through the engine. *)
Lemma revote_replaces_witness :
  ∃ e' p',
    submit_echo 5 6 "p" "gemini" RESONANT "again"
      (add_echo_at 0 "chatgpt" (new_echo_response "chatgpt" "p" RESONANT "" 2)
        (add_echo_at 0 "gemini" (new_echo_response "gemini" "p" DISSONANT "" 1)
          (create_proposal "p" 0 "claude" "t" "d" "general" new_engine).2)) = (Ok true, e')
    ∧ heap e' !! 0%nat = Some p'
    ∧ echoes p' !! "gemini" = Some (new_echo_response "gemini" "p" RESONANT "again" 6)
    ∧ size (echoes p') = 2%nat.
Proof.
  destruct (revote_replaces 5 6 "p" "gemini" RESONANT "again"
              (add_echo_at 0 "chatgpt" (new_echo_response "chatgpt" "p" RESONANT "" 2)
                (add_echo_at 0 "gemini" (new_echo_response "gemini" "p" DISSONANT "" 1)
                  (create_proposal "p" 0 "claude" "t" "d" "general" new_engine).2))
              0
              (add_echo "chatgpt" (new_echo_response "chatgpt" "p" RESONANT "" 2)
                (add_echo "gemini" (new_echo_response "gemini" "p" DISSONANT "" 1)
                  (set_status ACTIVE (new_proposal "p" 0 "claude" "t" "d" "general" 24))))
              (new_echo_response "gemini" "p" DISSONANT "" 1))
    as (e' & p' & Hrun & Hp & _ & Hnew & _ & Hsize);
    [reflexivity | reflexivity | reflexivity | reflexivity |].
  exists e', p'. repeat split; assumption.
Defined.

(** *** A vote after the deadline *)

(** C2, as the code has it. A vote on a proposal of the active set whose
    [expires_at] has passed is refused (the call returns [False]), the status
    of the proposal becomes [EXPIRED] and no vote is recorded; the proposal
    stays in the active set and the history is left as it was. *)
Theorem expired_vote_rejected now ts pid node kind comm e a p :
  active_proposals e !! pid = Some a →
  heap e !! a = Some p →
  is_expired now p = true →
  ∃ e' p',
    submit_echo now ts pid node kind comm e = (Ok false, e')
    ∧ heap e' !! a = Some p'
    ∧ status p' = EXPIRED
    ∧ echoes p' = echoes p
    ∧ active_proposals e' = active_proposals e
    ∧ active_proposals e' !! pid = Some a
    ∧ proposal_history e' = proposal_history e.
Proof.
  intros Ha Hp Hexp. eexists _, _.
  split; [by eapply submit_echo_expired |]. cbn [heap store active_proposals proposal_history].
  split; [apply list_lookup_insert_eq; by eapply lookup_lt_Some |]. done.
Qed.

Lemma expired_vote_rejected_witness :
  ∃ e' p',
    submit_echo 86400000001 86400000002 "p" "gemini" RESONANT "late"
      (create_proposal "p" 0 "claude" "t" "d" "general" new_engine).2 = (Ok false, e')
    ∧ heap e' !! 0%nat = Some p'
    ∧ status p' = EXPIRED
    ∧ echoes p' = ∅
    ∧ active_proposals e' !! "p" = Some 0%nat.
Proof.
  destruct (expired_vote_rejected 86400000001 86400000002 "p" "gemini" RESONANT "late"
              (create_proposal "p" 0 "claude" "t" "d" "general" new_engine).2 0
              (set_status ACTIVE (new_proposal "p" 0 "claude" "t" "d" "general" 24)))
    as (e' & p' & Hrun & Hp & Hst & Hechoes & _ & Hact & _);
    [reflexivity | reflexivity | reflexivity |].
  exists e', p'. repeat split; assumption.
Defined.

(** C2, as stated, fails: one microsecond after the deadline of a proposal
    created at time 0, a vote is refused and the status becomes [EXPIRED],
    but the proposal is still in the active set and the history is empty. *)
Lemma expired_vote_not_archived :
  (submit_echo 86400000001 86400000002 "p" "gemini" RESONANT "late"
     (create_proposal "p" 0 "claude" "t" "d" "general" new_engine).2).1 = Ok false
  ∧ status_at
      (submit_echo 86400000001 86400000002 "p" "gemini" RESONANT "late"
         (create_proposal "p" 0 "claude" "t" "d" "general" new_engine).2).2 0 = Some EXPIRED
  ∧ active_proposals
      (submit_echo 86400000001 86400000002 "p" "gemini" RESONANT "late"
         (create_proposal "p" 0 "claude" "t" "d" "general" new_engine).2).2 !! "p" = Some 0%nat
  ∧ proposal_history
      (submit_echo 86400000001 86400000002 "p" "gemini" RESONANT "late"
         (create_proposal "p" 0 "claude" "t" "d" "general" new_engine).2).2 = [].
Proof. vm_compute. done. Qed.

(** *** Three resonant votes *)

Lemma create_proposal_spec uuid t0 proposer ttl desc ptype e :
  create_proposal uuid t0 proposer ttl desc ptype e =
    (length (heap e),
     {| heap := heap e ++ [set_status ACTIVE (new_proposal uuid t0 proposer ttl desc ptype 24)];
        active_proposals := <[uuid := length (heap e)]> (active_proposals e);
        proposal_history := proposal_history e |}).
Proof. reflexivity. Qed.

(** C3. A proposal is created at time [t0] and three resonant votes are
    submitted, the first of them not after the deadline. The proposal then
    has status [CONVERGED], its tally is [consensus_strength = 100] with
    convergence achieved, it is out of the active set and it is the last
    entry of the history. All of this is the effect of one call, the first:
    its single vote is the whole tally (1/1), so the second and the third
    call find the proposal gone, return [False] and change nothing. *)
Theorem three_resonant_votes uuid t0 proposer ttl desc ptype e
    t1 ts1 n1 c1 t2 ts2 n2 c2 t3 ts3 n3 c3 :
  (t1 ≤ t0 + timedelta_hours 24)%Z →
  ∃ a e0 e1 p,
    create_proposal uuid t0 proposer ttl desc ptype e = (a, e0)
    ∧ submit_echo t1 ts1 uuid n1 RESONANT c1 e0 = (Ok true, e1)
    ∧ submit_echo t2 ts2 uuid n2 RESONANT c2 e1 = (Ok false, e1)
    ∧ submit_echo t3 ts3 uuid n3 RESONANT c3 e1 = (Ok false, e1)
    ∧ heap e1 !! a = Some p
    ∧ status p = CONVERGED
    ∧ consensus_strength (calculate_resonance p) = 100%Q
    ∧ resonance_score (calculate_resonance p) = 100%Q
    ∧ convergence_achieved (calculate_resonance p) = Some true
    ∧ active_proposals e1 !! uuid = None
    ∧ proposal_history e1 = proposal_history e ++ [a].
Proof.
  intros Hfresh. rewrite create_proposal_spec.
  set (p0 := set_status ACTIVE (new_proposal uuid t0 proposer ttl desc ptype 24)).
  set (e0 := {| heap := heap e ++ [p0] |}).
  assert (Ha : active_proposals e0 !! uuid = Some (length (heap e)))
    by apply lookup_insert_eq.
  assert (Hp : heap e0 !! length (heap e) = Some p0)
    by apply list_lookup_middle, eq_refl.
  assert (Hexp : is_expired t1 p0 = false) by (apply is_expired_false; exact Hfresh).
  destruct (calculate_resonance_first_echo n1 (new_echo_response n1 uuid RESONANT c1 ts1)
              p0 eq_refl) as (Hstrength & Hconv & _ & Hscore).
  destruct (submit_echo_unexpired t1 ts1 uuid n1 RESONANT c1 e0 _ p0 Ha Hp Hexp)
    as [[_ Hrun] | [Hno _]]; [| congruence].
  eexists (length (heap e)), e0, _, _.
  split; [reflexivity |]. split; [exact Hrun |].
  cbn [heap active_proposals proposal_history].
  split; [apply submit_echo_not_found, lookup_delete_eq |].
  split; [apply submit_echo_not_found, lookup_delete_eq |].
  split; [apply list_lookup_insert_eq; by eapply lookup_lt_Some |].
  rewrite calculate_resonance_set_status.
  repeat split; try done. apply lookup_delete_eq.
Qed.

Lemma three_resonant_votes_witness :
  ∃ a e0 e1 p,
    create_proposal "p" 0 "claude" "t" "d" "technical" new_engine = (a, e0)
    ∧ submit_echo 1 2 "p" "chatgpt" RESONANT "c1" e0 = (Ok true, e1)
    ∧ submit_echo 3 4 "p" "gemini" RESONANT "c2" e1 = (Ok false, e1)
    ∧ submit_echo 5 6 "p" "human" RESONANT "c3" e1 = (Ok false, e1)
    ∧ heap e1 !! a = Some p
    ∧ status p = CONVERGED
    ∧ proposal_history e1 = [a].
Proof.
  destruct (three_resonant_votes "p" 0 "claude" "t" "d" "technical" new_engine
              1 2 "chatgpt" "c1" 3 4 "gemini" "c2" 5 6 "human" "c3")
    as (a & e0 & e1 & p & H0 & H1 & H2 & H3 & Hp & Hst & _ & _ & _ & _ & Hhist);
    [vm_compute; discriminate |].
  exists a, e0, e1, p. repeat split; assumption.
Defined.

(** *** Listing the active proposals *)

(** C4, as the code has it. [list_active_proposals] returns exactly the
    proposals of the active set that are not expired at the clock reading
    taken for them, and it is a pure query: the engine, and with it the
    status of every expired proposal, is what it was before the call. *)
Theorem list_active_filters (now : string → Z) e :
  (list_active_proposals now e).2 = e
  ∧ (∀ view, view ∈ (list_active_proposals now e).1 ↔
       ∃ k a p, active_proposals e !! k = Some a
              ∧ heap e !! a = Some p
              ∧ is_expired (now k) p = false
              ∧ view = (to_dict p, calculate_resonance p)).
Proof.
  split; [reflexivity |]. intros view. cbn [list_active_proposals fst].
  rewrite list_elem_of_omap. split.
  - intros ([k a] & Hin & Hview). apply elem_of_map_to_list in Hin.
    cbn [fst snd] in Hview. destruct (heap e !! a) as [p |] eqn:Hp; [| done].
    cbn in Hview. destruct (is_expired (now k) p) eqn:Hexp; [done |].
    injection Hview as <-. by exists k, a, p.
  - intros (k & a & p & Ha & Hp & Hexp & ->). exists (k, a).
    split; [by apply elem_of_map_to_list |].
    cbn [fst snd]. rewrite Hp. cbn. by rewrite Hexp.
Qed.

(** C4, as stated, fails: a proposal created at time 0 and never voted on is
    left out of a listing made after its deadline, and after the listing its
    status is still [ACTIVE]. *)
Lemma listing_does_not_expire :
  (list_active_proposals (λ _, 86400000001%Z)
     (create_proposal "p" 0 "claude" "t" "d" "general" new_engine).2).1 = []
  ∧ status_at
      (list_active_proposals (λ _, 86400000001%Z)
         (create_proposal "p" 0 "claude" "t" "d" "general" new_engine).2).2 0 = Some ACTIVE
  ∧ active_proposals
      (list_active_proposals (λ _, 86400000001%Z)
         (create_proposal "p" 0 "claude" "t" "d" "general" new_engine).2).2 !! "p" = Some 0%nat.
Proof. vm_compute. done. Qed.

(** *** The history holds converged proposals only *)

Lemma engine_inv_new : engine_inv new_engine.
Proof.
  split; [| split].
  - intros k a Ha. cbn in Ha. by rewrite lookup_empty in Ha.
  - intros k1 k2 a Ha. cbn in Ha. by rewrite lookup_empty in Ha.
  - constructor.
Qed.

Lemma status_at_lt e a s : status_at e a = Some s → a < length (heap e).
Proof.
  unfold status_at. destruct (heap e !! a) eqn:Hp; [| done].
  intros _. by eapply lookup_lt_Some.
Qed.

Lemma engine_inv_create uuid t0 proposer ttl desc ptype e :
  engine_inv e → engine_inv (create_proposal uuid t0 proposer ttl desc ptype e).2.
Proof.
  intros (Hact & Hinj & Hhist). rewrite create_proposal_spec. cbn [snd].
  assert (Hfresh : length (heap e) ∉ proposal_history e).
  { intros Hin. eapply Forall_forall in Hhist; [| exact Hin].
    apply status_at_lt in Hhist. lia. }
  split; [| split]; cbn [heap active_proposals proposal_history].
  - intros k a. rewrite length_app. cbn [length]. rewrite lookup_insert.
    case_decide as Hk.
    + intros [= <-]. split; [lia | done].
    + intros Ha. destruct (Hact _ _ Ha). split; [lia | done].
  - intros k1 k2 a. rewrite !lookup_insert.
    repeat case_decide; subst; try done.
    + intros [= <-] Ha. apply Hact in Ha. lia.
    + intros Ha [= <-]. apply Hact in Ha. lia.
    + apply Hinj.
  - eapply Forall_impl; [exact Hhist |]. intros a Ha. cbn beta in *.
    pose proof (status_at_lt _ _ _ Ha) as Hlt.
    unfold status_at in *. cbn [heap]. by rewrite lookup_app_l.
Qed.

(** A write to an object of the active set leaves the history as it is. *)
Lemma history_frame e a p' :
  a ∉ proposal_history e →
  Forall (λ b, status_at e b = Some CONVERGED) (proposal_history e) →
  Forall (λ b, status <$> <[a := p']> (heap e) !! b = Some CONVERGED) (proposal_history e).
Proof.
  intros Hnotin Hhist. apply Forall_forall. intros b Hb.
  eapply Forall_forall in Hhist; [| exact Hb]. unfold status_at in Hhist.
  rewrite list_lookup_insert_ne; [done |]. intros ->. done.
Qed.

Lemma engine_inv_store e k a p' :
  active_proposals e !! k = Some a →
  engine_inv e → engine_inv (store a p' e).
Proof.
  intros Ha (Hact & Hinj & Hhist).
  split; [| split]; cbn [store heap active_proposals proposal_history].
  - intros k' a' Ha'. rewrite length_insert. by apply Hact in Ha'.
  - exact Hinj.
  - apply history_frame; [apply (Hact _ _ Ha) | done].
Qed.

Lemma engine_inv_submit now ts pid node kind comm e :
  engine_inv e → engine_inv (submit_echo now ts pid node kind comm e).2.
Proof.
  intros Hinv.
  destruct (active_proposals e !! pid) as [a |] eqn:Ha;
    [| by rewrite submit_echo_not_found].
  pose proof Hinv as (Hact & Hinj & Hhist).
  destruct (Hact _ _ Ha) as [Hlt Hnotin].
  destruct (lookup_lt_is_Some_2 _ _ Hlt) as [p Hp].
  destruct (is_expired now p) eqn:Hexp.
  { erewrite submit_echo_expired by done. by eapply engine_inv_store. }
  destruct (submit_echo_unexpired now ts pid node kind comm e a p Ha Hp Hexp)
    as [[_ ->] | [_ ->]]; [| by eapply engine_inv_store].
  split; [| split]; cbn [snd heap active_proposals proposal_history].
  - intros k' a' Ha'. rewrite length_insert.
    apply lookup_delete_Some in Ha' as [Hne Ha'].
    destruct (Hact _ _ Ha') as [Hlt' Hnotin']. split; [done |].
    rewrite elem_of_app, list_elem_of_singleton. intros [? | ->]; [done |].
    by apply Hne, (Hinj _ _ _ Ha Ha').
  - intros k1 k2 a' H1 H2.
    apply lookup_delete_Some in H1 as [_ H1]. apply lookup_delete_Some in H2 as [_ H2].
    by eapply Hinj.
  - apply Forall_app. split; [by apply history_frame |].
    constructor; [| constructor]. unfold status_at. cbn [heap].
    by rewrite list_lookup_insert_eq.
Qed.

Lemma engine_inv_exec e op : engine_inv e → engine_inv (exec e op).
Proof.
  destruct op; [apply engine_inv_create | apply engine_inv_submit].
Qed.

Lemma engine_inv_foldl ops e : engine_inv e → engine_inv (foldl exec e ops).
Proof.
  revert e. induction ops as [| op ops IH]; intros e Hinv; [done |].
  cbn [foldl]. by apply IH, engine_inv_exec.
Qed.

Lemma engine_inv_run ops : engine_inv (run ops).
Proof. apply engine_inv_foldl, engine_inv_new. Qed.

(** On an engine that satisfies the invariant [submit_echo] returns: the
    two failure branches of the model are out of reach. *)
Lemma submit_echo_returns now ts pid node kind comm e :
  engine_inv e → returned (submit_echo now ts pid node kind comm e).1.
Proof.
  intros (Hact & _ & _).
  destruct (active_proposals e !! pid) as [a |] eqn:Ha;
    [| rewrite submit_echo_not_found by done; by eexists].
  destruct (Hact _ _ Ha) as [Hlt _].
  destruct (lookup_lt_is_Some_2 _ _ Hlt) as [p Hp].
  destruct (is_expired now p) eqn:Hexp.
  { erewrite submit_echo_expired by done. by eexists. }
  destruct (submit_echo_unexpired now ts pid node kind comm e a p Ha Hp Hexp)
    as [[_ ->] | [_ ->]]; by eexists.
Qed.

(** Engine calls alone never leave a vote on a proposal of the active set:
    the first vote takes the proposal out of it. *)
Lemma no_votes_exec e op : engine_inv e → no_votes e → no_votes (exec e op).
Proof.
  intros (Hact & Hinj & _) Hnv.
  destruct op as [uuid t0 proposer ttl desc ptype | now ts pid node kind comm]; cbn [exec].
  - rewrite create_proposal_spec. cbn [snd]. unfold no_votes. cbn [heap active_proposals].
    apply map_Forall_insert_2.
    + by rewrite list_lookup_middle.
    + intros k a Ha. destruct (Hact _ _ Ha) as [Hlt _].
      rewrite lookup_app_l by done. by apply Hnv in Ha.
  - destruct (active_proposals e !! pid) as [a |] eqn:Ha;
      [| by rewrite submit_echo_not_found].
    destruct (Hact _ _ Ha) as [Hlt _].
    destruct (lookup_lt_is_Some_2 _ _ Hlt) as [p Hp].
    pose proof (Hnv _ _ Ha) as Hempty. cbn beta in Hempty.
    rewrite Hp in Hempty. injection Hempty as Hempty.
    destruct (is_expired now p) eqn:Hexp.
    { erewrite submit_echo_expired by done. cbn [snd]. intros k a' Ha'.
      cbn [store heap active_proposals] in *.
      destruct (decide (a' = a)) as [-> | Hne].
      - rewrite list_lookup_insert_eq by done. cbn. by rewrite Hempty.
      - rewrite list_lookup_insert_ne by done. by apply Hnv in Ha'. }
    destruct (calculate_resonance_first_echo node
                (new_echo_response node pid kind comm ts) p Hempty) as (_ & Hconv & _).
    destruct (submit_echo_unexpired now ts pid node kind comm e a p Ha Hp Hexp)
      as [[_ ->] | [Hno _]]; [| congruence].
    cbn [snd]. intros k a' Ha'. cbn [heap active_proposals] in *.
    apply lookup_delete_Some in Ha' as [Hk Ha'].
    rewrite list_lookup_insert_ne; [by apply Hnv in Ha' |].
    intros ->. by apply Hk, (Hinj _ _ _ Ha Ha').
Qed.

Lemma no_votes_run ops : no_votes (run ops).
Proof.
  unfold run.
  cut (∀ e, engine_inv e → no_votes e → no_votes (foldl exec e ops)).
  { intros Hcut. apply Hcut; [apply engine_inv_new | apply map_Forall_empty]. }
  induction ops as [| op ops IH]; intros e Hinv Hnv; [done |].
  cbn [foldl]. apply IH; [by apply engine_inv_exec | by apply no_votes_exec].
Qed.

(** X2. After any sequence of engine calls, every proposal of the active
    set has an empty vote map. *)
Lemma active_proposals_have_no_votes (ops : list Op) :
  map_Forall (λ _ a, echoes <$> heap (run ops) !! a = Some ∅) (active_proposals (run ops)).
Proof. apply no_votes_run. Qed.

(** X3. After any sequence of engine calls, [submit_echo] returns a
    boolean: it raises nothing. *)
Lemma submit_echo_never_raises (ops : list Op) now ts pid node kind comm :
  returned (submit_echo now ts pid node kind comm (run ops)).1.
Proof. apply submit_echo_returns, engine_inv_run. Qed.

(** One call appends at most one address to the history, and only that of
    a proposal it has just marked [CONVERGED] and taken out of the active
    set. *)
Lemma history_step e op :
  proposal_history (exec e op) = proposal_history e
  ∨ ∃ pid a,
      active_proposals e !! pid = Some a
      ∧ active_proposals (exec e op) = delete pid (active_proposals e)
      ∧ status_at (exec e op) a = Some CONVERGED
      ∧ proposal_history (exec e op) = proposal_history e ++ [a].
Proof.
  destruct op as [uuid t0 proposer ttl desc ptype | now ts pid node kind comm];
    [by left |].
  cbn [exec].
  destruct (active_proposals e !! pid) as [a |] eqn:Ha;
    [| rewrite submit_echo_not_found by done; by left].
  destruct (heap e !! a) as [p |] eqn:Hp;
    [| unfold submit_echo; rewrite Ha, Hp; by left].
  destruct (is_expired now p) eqn:Hexp.
  { erewrite submit_echo_expired by done. by left. }
  destruct (submit_echo_unexpired now ts pid node kind comm e a p Ha Hp Hexp)
    as [[_ ->] | [_ ->]]; [right | by left].
  exists pid, a. cbn [snd heap active_proposals proposal_history]. repeat split; try done.
  unfold status_at. cbn [heap].
  rewrite list_lookup_insert_eq by (by eapply lookup_lt_Some). done.
Qed.

(** C10. After any sequence of [create_proposal] and [submit_echo] calls on
    a new engine, every proposal of the history has status [CONVERGED]; and
    a further call either leaves the history as it is or appends the one
    proposal it has just marked [CONVERGED] and removed from the active
    set. *)
Theorem history_is_converged (ops : list Op) :
  Forall (λ a, status_at (run ops) a = Some CONVERGED) (proposal_history (run ops))
  ∧ ∀ op,
      proposal_history (exec (run ops) op) = proposal_history (run ops)
      ∨ ∃ pid a,
          active_proposals (run ops) !! pid = Some a
          ∧ active_proposals (exec (run ops) op) = delete pid (active_proposals (run ops))
          ∧ status_at (exec (run ops) op) a = Some CONVERGED
          ∧ proposal_history (exec (run ops) op) = proposal_history (run ops) ++ [a].
Proof.
  split; [apply engine_inv_run | intros op; apply history_step].
Qed.

End ProposalFacts.

(** * Properties of the encryption layer *)

Section EncryptionFacts.
Import Encryption.
Context {L : Library}.

(** The envelope has the ciphertext, the nonce and the tag, and nothing
    else: no field names the sender. *)
Lemma encrypt_message_fields iv message key env :
  encrypt_message iv message key = Ok env →
  dom env = {["ciphertext"; "iv"; "tag"]}.
Proof.
  unfold encrypt_message.
  destruct (gcm_encrypt key iv (str_encode message)) as [[c tag] |]; [| done].
  cbn. destruct (bytes_decode (b64encode c)); [| done].
  cbn. destruct (bytes_decode (b64encode iv)); [| done].
  cbn. destruct (bytes_decode (b64encode tag)); [| done].
  cbn. intros [= <-]. rewrite !dom_insert_L, dom_empty_L. set_solver.
Qed.

(** X5. [decrypt_message] fails closed: when the tag does not verify under
    the key it is given, it raises [InvalidTag] and returns no text. *)
Lemma decrypt_message_invalid_tag data key c_text c iv_text iv tag_text tag :
  data !! "ciphertext" = Some c_text → b64decode c_text = Ok c →
  data !! "iv" = Some iv_text → b64decode iv_text = Ok iv →
  data !! "tag" = Some tag_text → b64decode tag_text = Ok tag →
  gcm_decrypt key iv tag c = Raise InvalidTag →
  decrypt_message data key = Raise InvalidTag.
Proof.
  intros Hc Hc' Hiv Hiv' Htag Htag' Hbad. unfold decrypt_message.
  rewrite Hc. cbn. rewrite Hc'. cbn. rewrite Hiv. cbn. rewrite Hiv'. cbn.
  rewrite Htag. cbn. rewrite Htag'. cbn. by rewrite Hbad.
Qed.


(** [decrypt_message] on an envelope whose three fields are there and
    decode: the outcome is that of the AES-GCM decryption and of the decoding
    of its plaintext. *)
Lemma decrypt_message_returns data key c_text c iv_text iv tag_text tag :
  data !! "ciphertext" = Some c_text → b64decode c_text = Ok c →
  data !! "iv" = Some iv_text → b64decode iv_text = Ok iv →
  data !! "tag" = Some tag_text → b64decode tag_text = Ok tag →
  decrypt_message data key = gcm_decrypt key iv tag c ≫= bytes_decode.
Proof.
  intros Hc Hc' Hiv Hiv' Htag Htag'. unfold decrypt_message.
  rewrite Hc. cbn. rewrite Hc'. cbn. rewrite Hiv. cbn. rewrite Hiv'. cbn.
  rewrite Htag. cbn. by rewrite Htag'.
Qed.

Context {HL : LibrarySpec L}.

(** A key that [derive_shared_key] returns is a 256-bit key. *)
Lemma derive_shared_key_length self peer key :
  derive_shared_key self peer = Ok key → length key = 32.
Proof.
  unfold derive_shared_key.
  destruct (load_pem_public_key peer) as [pk |]; [| done]. cbn.
  destruct (ecdh_exchange (private_key self) pk) as [secret |]; [| done]. cbn.
  intros [= <-]. apply hkdf_length.
Qed.

(** C8. Under the contracts of the libraries ([LibrarySpec]), for every
    plaintext, every 256-bit session key and every 96-bit nonce that
    [os.urandom] may return, [encrypt_message] returns an envelope, and
    [decrypt_message] of that envelope under the same key returns the
    plaintext. *)
Theorem encrypt_decrypt_round_trip (iv : bytes) (message : string) (key : bytes) :
  length key = 32 →
  length iv = 12 →
  ∃ envelope,
    encrypt_message iv message key = Ok envelope
    ∧ decrypt_message envelope key = Ok message.
Proof.
  intros Hkey Hiv.
  destruct (gcm_encrypt_returns key iv (str_encode message) Hkey Hiv) as (c & tag & Henc).
  destruct (b64_round_trip c) as (c_text & Hc & Hc').
  destruct (b64_round_trip iv) as (iv_text & Hi & Hi').
  destruct (b64_round_trip tag) as (tag_text & Ht & Ht').
  exists (<["ciphertext" := c_text]> (<["iv" := iv_text]> (<["tag" := tag_text]> ∅))).
  split.
  - unfold encrypt_message. rewrite Henc. cbn. rewrite Hc. cbn. rewrite Hi. cbn.
    rewrite Ht. cbn. reflexivity.
  - erewrite decrypt_message_returns;
      [| by simplify_map_eq | exact Hc' | by simplify_map_eq | exact Hi'
       | by simplify_map_eq | exact Ht' ].
    rewrite (gcm_round_trip _ _ _ _ _ Henc). cbn. apply utf8_round_trip.
Qed.

End EncryptionFacts.

(** * Properties of the inbox callback *)

Section EchoBusFacts.
Import Encryption EchoBus.
Context {L : Library}.

Implicit Types (self : EchoBus) (data : gmap string string).
Implicit Types (items : list (string * bytes)).

(** A payload without a [ciphertext] field is ignored. *)
Lemma handle_message_not_encrypted self data :
  data !! "ciphertext" = None → _handle_message self data = [].
Proof.
  intros Hnone. unfold _handle_message. rewrite Hnone.
  rewrite decide_False; [done |]. by intros [? ?].
Qed.

(** The loop goes past every entry whose attempt raises. *)
Lemma try_peer_keys_skips self data items rest :
  Forall (λ sp, raised (attempt self data sp.1 sp.2).2) items →
  try_peer_keys self data (items ++ rest)
  = attempts_events self data items ++ try_peer_keys self data rest.
Proof.
  unfold attempts_events.
  induction 1 as [| [s pk] items [err Herr] _ IH]; [done |].
  cbn [app try_peer_keys fmap list_fmap concat fst snd] in *.
  destruct (attempt self data s pk) as [events r]. cbn [fst snd] in *. subst r.
  by rewrite IH, app_assoc.
Qed.

(** The loop stops at an entry whose attempt goes through. *)
Lemma try_peer_keys_stops self data s pk rest :
  returned (attempt self data s pk).2 →
  try_peer_keys self data ((s, pk) :: rest) = (attempt self data s pk).1.
Proof.
  intros [u Hu]. cbn [try_peer_keys].
  destruct (attempt self data s pk) as [events r]. cbn [fst snd] in *. by subst r.
Qed.

(** An attempt whose decryption raises has called [decrypt_message] once,
    with the key derived for that peer, and reports nothing else. *)
Lemma attempt_decrypt_raises self data s pk key err :
  derive_shared_key (encryption self) pk = Ok key →
  decrypt_message data key = Raise err →
  attempt self data s pk = ([DecryptAttempt s], Raise err).
Proof.
  intros Hkey Hdec. unfold attempt. rewrite Hkey, Hdec. reflexivity.
Qed.

(** When no key fits, every known peer has been tried. *)
Lemma handle_message_tries_all self data :
  is_Some (data !! "ciphertext") →
  Forall (λ sp, raised (attempt self data sp.1 sp.2).2) (peer_keys self) →
  _handle_message self data = attempts_events self data (peer_keys self).
Proof.
  intros Hct Hall. unfold _handle_message. rewrite decide_True by done.
  rewrite <- (app_nil_r (peer_keys self)) at 1.
  rewrite try_peer_keys_skips by done. cbn [try_peer_keys]. by rewrite app_nil_r.
Qed.

(** C1, as the code has it. On an encrypted payload the callback tries the
    keys of the known peers one after the other, in the order of the
    directory: every peer whose attempt raises is passed over without a
    report, the first peer whose attempt goes through ends the loop and the
    peers after it are not tried; when no attempt goes through, every known
    peer has been tried. *)
Theorem handle_message_tries_in_order self data :
  is_Some (data !! "ciphertext") →
  (∀ before s pk after,
     peer_keys self = before ++ (s, pk) :: after →
     Forall (λ sp, raised (attempt self data sp.1 sp.2).2) before →
     returned (attempt self data s pk).2 →
     _handle_message self data
     = attempts_events self data before ++ (attempt self data s pk).1)
  ∧ (Forall (λ sp, raised (attempt self data sp.1 sp.2).2) (peer_keys self) →
     _handle_message self data = attempts_events self data (peer_keys self)).
Proof.
  intros Hct. split; [| by apply handle_message_tries_all].
  intros before s pk after Hkeys Hbefore Hok. unfold _handle_message.
  rewrite decide_True by done. rewrite Hkeys.
  rewrite try_peer_keys_skips by done. by rewrite try_peer_keys_stops.
Qed.

End EchoBusFacts.

(** The small instance meets the contracts. *)
#[global] Instance toy_spec : Encryption.LibrarySpec Toy.toy_library.
Proof.
  split.
  - intros s. exact (f_equal Ok (String.string_of_list_byte_of_string s)).
  - intros b. exists (String.string_of_list_byte b). split; [reflexivity |].
    exact (f_equal Ok (String.list_byte_of_string_of_list_byte b)).
  - intros key iv m Hkey _. change (∃ c tag, Toy.toy_gcm_encrypt key iv m = Ok (c, tag)).
    unfold Toy.toy_gcm_encrypt. rewrite decide_True by done. by eexists _, _.
  - intros key iv m c tag.
    change (Toy.toy_gcm_encrypt key iv m = Ok (c, tag) → Toy.toy_gcm_decrypt key iv tag c = Ok m).
    unfold Toy.toy_gcm_encrypt, Toy.toy_gcm_decrypt.
    case_decide; [| done]. intros [= <- <-]. by rewrite decide_True.
  - intros secret. change (length (Toy.toy_hkdf secret) = 32). unfold Toy.toy_hkdf.
    rewrite length_take, length_app, length_replicate. lia.
Qed.

Section ToyRuns.
Import Encryption Toy.

Lemma encrypt_decrypt_round_trip_witness :
  length key_a = 32 ∧ length nonce = 12
  ∧ ∃ envelope,
      encrypt_message nonce "hello" key_a = Ok envelope
      ∧ decrypt_message envelope key_a = Ok "hello".
Proof.
  split; [reflexivity |]. split; [reflexivity |].
  apply (encrypt_decrypt_round_trip nonce "hello" key_a); reflexivity.
Defined.

Lemma decrypt_message_invalid_tag_witness :
  decrypt_message envelope_from_bob carol_alice_key = Raise InvalidTag.
Proof.
  apply (decrypt_message_invalid_tag envelope_from_bob carol_alice_key
           "hello carol" (String.list_byte_of_string "hello carol")
           (String.string_of_list_byte nonce) nonce
           (String.string_of_list_byte (carol_bob_key ++ nonce)) (carol_bob_key ++ nonce));
    vm_compute; reflexivity.
Defined.

(** C1, as stated, fails: carol receives an envelope sealed under the key
    she shares with bob. The callback calls [decrypt_message] with alice's
    key first, which raises [InvalidTag]; nothing is reported and bob's key
    is tried next: two decryption attempts, and the first is not with the
    sender's key. *)
Lemma inbox_trial_decrypts :
  derive_shared_key (EchoBus.encryption carol) [Byte.x41] = Ok carol_alice_key
  ∧ derive_shared_key (EchoBus.encryption carol) [Byte.x42] = Ok carol_bob_key
  ∧ encrypt_message nonce "hello carol" carol_bob_key = Ok envelope_from_bob
  ∧ decrypt_message envelope_from_bob carol_alice_key = Raise InvalidTag
  ∧ EchoBus._handle_message carol envelope_from_bob
    = [EchoBus.DecryptAttempt "alice"; EchoBus.DecryptAttempt "bob";
       EchoBus.Dispatch "hello carol"]
  ∧ EchoBus.decrypt_attempts (EchoBus._handle_message carol envelope_from_bob)
    = ["alice"; "bob"].
Proof. vm_compute. done. Qed.

Lemma handle_message_tries_in_order_witness :
  EchoBus._handle_message carol envelope_from_bob
  = [EchoBus.DecryptAttempt "alice"; EchoBus.DecryptAttempt "bob";
     EchoBus.Dispatch "hello carol"].
Proof.
  assert (Hct : is_Some (envelope_from_bob !! "ciphertext")) by (eexists; reflexivity).
  destruct (handle_message_tries_in_order carol envelope_from_bob Hct) as [Horder _].
  rewrite (Horder [("alice", [Byte.x41])] "bob" [Byte.x42] []).
  - vm_compute. reflexivity.
  - reflexivity.
  - repeat constructor. vm_compute. eauto.
  - vm_compute. eauto.
Defined.

End ToyRuns.

(** * More on the tally *)

Section TallyFacts.
Import Proposal.

Implicit Types (p : ConsciousnessProposal) (es : gmap string EchoResponse).

(** A vote of a new node adds one to the number of votes of its kind and
    leaves the other kinds as they are. *)
Lemma votes_of_kind_insert t node r es :
  es !! node = None →
  votes_of_kind t (<[node := r]> es)
  = if decide (echo_type r = t) then S (votes_of_kind t es) else votes_of_kind t es.
Proof.
  intros Hfresh. unfold votes_of_kind. case_decide as Hkind.
  - rewrite map_filter_insert_True by done.
    rewrite map_size_insert_None; [done |].
    apply map_lookup_filter_None. by left.
  - rewrite map_filter_insert_False by done. by rewrite delete_id.
Qed.

(** The loop of [calculate_resonance] counts every kind exactly. *)
Lemma count_echoes_exact es :
  count_echoes es
  = [(RESONANT, votes_of_kind RESONANT es); (DISSONANT, votes_of_kind DISSONANT es);
     (INQUIRY, votes_of_kind INQUIRY es); (ABSTAIN, votes_of_kind ABSTAIN es)].
Proof.
  unfold count_echoes.
  apply (map_fold_weak_ind (λ counts (m : gmap string EchoResponse),
    counts = [(RESONANT, votes_of_kind RESONANT m); (DISSONANT, votes_of_kind DISSONANT m);
              (INQUIRY, votes_of_kind INQUIRY m); (ABSTAIN, votes_of_kind ABSTAIN m)])).
  - unfold votes_of_kind. by rewrite !map_filter_empty, map_size_empty.
  - intros node r m counts Hfresh ->.
    rewrite !votes_of_kind_insert by done.
    destruct (echo_type r); reflexivity.
Qed.

Lemma votes_of_kind_total es :
  votes_of_kind RESONANT es + votes_of_kind DISSONANT es
  + votes_of_kind INQUIRY es + votes_of_kind ABSTAIN es = size es.
Proof.
  destruct (count_echoes_total es) as (c1 & c2 & c3 & c4 & Hcounts & Hsum).
  rewrite count_echoes_exact in Hcounts. by injection Hcounts as -> -> -> ->.
Qed.

(** X6. For a proposal with at least one vote, the [echo_distribution] of
    the tally lists the four kinds in enumeration order, each with the exact
    number of votes of that kind, and these numbers add up to the number of
    votes. *)
Lemma echo_distribution_exact p :
  echoes p ≠ ∅ →
  echo_distribution (calculate_resonance p)
  = Some [("resonant", votes_of_kind RESONANT (echoes p));
          ("dissonant", votes_of_kind DISSONANT (echoes p));
          ("inquiry", votes_of_kind INQUIRY (echoes p));
          ("abstain", votes_of_kind ABSTAIN (echoes p))]
  ∧ votes_of_kind RESONANT (echoes p) + votes_of_kind DISSONANT (echoes p)
    + votes_of_kind INQUIRY (echoes p) + votes_of_kind ABSTAIN (echoes p)
    = size (echoes p).
Proof.
  intros Hne. split; [| apply votes_of_kind_total].
  unfold calculate_resonance. rewrite bool_decide_eq_false_2 by done.
  cbn [echo_distribution]. by rewrite count_echoes_exact.
Qed.

Lemma echo_distribution_exact_witness :
  echo_distribution (calculate_resonance two_to_one)
  = Some [("resonant", 2); ("dissonant", 1); ("inquiry", 0); ("abstain", 0)].
Proof.
  destruct (echo_distribution_exact two_to_one) as [Hdist _];
    [vm_compute; discriminate |].
  rewrite Hdist. vm_compute. reflexivity.
Defined.

(** The pick of [max(echo_counts, key=echo_counts.get)] on four counts:
    a largest one, and the first such. *)
Lemma dominant_of_counts (c1 c2 c3 c4 : nat) :
  let count_of t :=
    match t with RESONANT => c1 | DISSONANT => c2 | INQUIRY => c3 | ABSTAIN => c4 end in
  let t := dominant [(RESONANT, c1); (DISSONANT, c2); (INQUIRY, c3); (ABSTAIN, c4)] in
  (∀ t', (count_of t' ≤ count_of t)%nat)
  ∧ (∀ t', (kind_rank t' < kind_rank t)%nat → (count_of t' < count_of t)%nat)
  ∧ max_list [c1; c2; c3; c4] = count_of t.
Proof.
  cbn [dominant max_by_count fst snd max_list max_list_with].
  destruct (Nat.ltb_spec c1 c2); cbn [fst snd];
    [destruct (Nat.ltb_spec c2 c3) | destruct (Nat.ltb_spec c1 c3)]; cbn [fst snd];
    match goal with
    | |- context [(?a <? c4)%nat] => destruct (Nat.ltb_spec a c4)
    end; cbn [fst snd kind_rank]; unfold Datatypes.id;
    (split; [intros []; lia | split; [intros []; cbn [kind_rank]; lia | lia]]).
Qed.

(** X7. For a proposal with at least one vote, [dominant_pattern] names a
    kind with the largest number of votes, and among the kinds that share
    the largest number the first of the enumeration; [consensus_strength]
    is the share of that kind, in percent. *)
Lemma dominant_pattern_first_maximum p :
  echoes p ≠ ∅ →
  ∃ t,
    dominant_pattern (calculate_resonance p) = echo_value t
    ∧ (∀ t', (votes_of_kind t' (echoes p) ≤ votes_of_kind t (echoes p))%nat)
    ∧ (∀ t', (kind_rank t' < kind_rank t)%nat →
             (votes_of_kind t' (echoes p) < votes_of_kind t (echoes p))%nat)
    ∧ consensus_strength (calculate_resonance p)
      = (Qnat (votes_of_kind t (echoes p)) / Qnat (size (echoes p)) * 100)%Q.
Proof.
  intros Hne. unfold calculate_resonance. rewrite bool_decide_eq_false_2 by done.
  cbn [dominant_pattern consensus_strength]. rewrite count_echoes_exact.
  pose proof (dominant_of_counts
                (votes_of_kind RESONANT (echoes p)) (votes_of_kind DISSONANT (echoes p))
                (votes_of_kind INQUIRY (echoes p)) (votes_of_kind ABSTAIN (echoes p)))
    as Hdom. cbv zeta in Hdom.
  set (t := dominant _) in *. destruct Hdom as (Hmax & Hfirst & Hlist).
  assert (Hcount : ∀ t', match t' with
                         | RESONANT => votes_of_kind RESONANT (echoes p)
                         | DISSONANT => votes_of_kind DISSONANT (echoes p)
                         | INQUIRY => votes_of_kind INQUIRY (echoes p)
                         | ABSTAIN => votes_of_kind ABSTAIN (echoes p)
                         end = votes_of_kind t' (echoes p)) by (by intros []).
  exists t. split; [reflexivity |].
  split; [intros t'; specialize (Hmax t'); by rewrite !Hcount in Hmax |].
  split; [intros t' Hrank; specialize (Hfirst t' Hrank); by rewrite !Hcount in Hfirst |].
  change (([_; _; _; _] : list (EchoType * nat)).*2)
    with [votes_of_kind RESONANT (echoes p); votes_of_kind DISSONANT (echoes p);
          votes_of_kind INQUIRY (echoes p); votes_of_kind ABSTAIN (echoes p)].
  by rewrite Hlist, Hcount.
Qed.

(** A tie between resonant and dissonant goes to resonant, the first of the
    two in the enumeration. *)
Lemma dominant_pattern_first_maximum_witness :
  echoes one_to_one ≠ ∅
  ∧ dominant_pattern (calculate_resonance one_to_one) = "resonant"
  ∧ ∃ t, dominant_pattern (calculate_resonance one_to_one) = echo_value t
         ∧ ∀ t', (votes_of_kind t' (echoes one_to_one) ≤ votes_of_kind t (echoes one_to_one))%nat.
Proof.
  assert (Hne : echoes one_to_one ≠ ∅) by (vm_compute; discriminate).
  split; [exact Hne |]. split; [vm_compute; reflexivity |].
  destruct (dominant_pattern_first_maximum one_to_one Hne) as (t & Hdom & Hmax & _).
  exists t. split; assumption.
Defined.

Lemma Qnat_ratio_mono (a b t : nat) :
  (a ≤ b)%nat → (0 < t)%nat →
  (Qnat a / Qnat t * 100 <= Qnat b / Qnat t * 100)%Q.
Proof.
  intros Hle Hpos. destruct t as [| t]; [lia |].
  unfold Qnat, Qdiv, Qmult, Qinv, Qle, inject_Z.
  change (Z.of_nat (S t)) with (Z.pos (Pos.of_succ_nat t)). cbn [Qnum Qden].
  rewrite Pos.mul_1_l, Pos.mul_1_r. nia.
Qed.

Lemma Qnat_ratio_quarter (m t : nat) :
  (t ≤ 4 * m)%nat → (0 < t)%nat → (25 <= Qnat m / Qnat t * 100)%Q.
Proof.
  intros Hle Hpos. destruct t as [| t]; [lia |].
  unfold Qnat, Qdiv, Qmult, Qinv, Qle, inject_Z.
  change (Z.of_nat (S t)) with (Z.pos (Pos.of_succ_nat t)). cbn [Qnum Qden].
  rewrite Pos.mul_1_l, Pos.mul_1_r. lia.
Qed.

(** X8. For a proposal with at least one vote, [consensus_strength] is at
    least 25 (the largest of four counts is at least a quarter of the votes)
    and never below [resonance_score]. *)
Lemma consensus_strength_floor p :
  echoes p ≠ ∅ →
  (25 <= consensus_strength (calculate_resonance p))%Q
  ∧ (resonance_score (calculate_resonance p) <= consensus_strength (calculate_resonance p))%Q.
Proof.
  intros Hne. unfold calculate_resonance. rewrite bool_decide_eq_false_2 by done.
  cbn [resonance_score consensus_strength]. rewrite count_echoes_exact.
  pose proof (votes_of_kind_total (echoes p)) as Hsum.
  assert (Hpos : (0 < size (echoes p))%nat).
  { destruct (size (echoes p)) eqn:Hsz; [| lia]. by apply map_size_empty_inv in Hsz. }
  change (get_count RESONANT _) with (votes_of_kind RESONANT (echoes p)).
  change (max_list _)
    with (votes_of_kind RESONANT (echoes p)
          `max` (votes_of_kind DISSONANT (echoes p)
          `max` (votes_of_kind INQUIRY (echoes p)
          `max` (votes_of_kind ABSTAIN (echoes p) `max` 0)))).
  split; [apply Qnat_ratio_quarter | apply Qnat_ratio_mono]; lia.
Qed.

Lemma consensus_strength_floor_witness :
  echoes two_to_one ≠ ∅
  ∧ (25 <= consensus_strength (calculate_resonance two_to_one))%Q
  ∧ (resonance_score (calculate_resonance two_to_one)
     <= consensus_strength (calculate_resonance two_to_one))%Q.
Proof.
  assert (Hne : echoes two_to_one ≠ ∅) by (vm_compute; discriminate).
  split; [exact Hne |]. apply (consensus_strength_floor two_to_one Hne).
Defined.

End TallyFacts.

(** * More on the engine *)

Section EngineFacts.
Import Proposal.

Implicit Types (p : ConsciousnessProposal) (e : EchoConsensusEngine).

Lemma calculate_resonance_empty p :
  echoes p = ∅ → calculate_resonance p = empty_resonance.
Proof.
  intros Hempty. unfold calculate_resonance. by rewrite bool_decide_eq_true_2.
Qed.

Lemma engine_facts_new : engine_facts new_engine.
Proof.
  split; [apply map_Forall_empty |]. repeat split; constructor.
Qed.

Lemma engine_facts_create uuid t0 proposer ttl desc ptype e :
  engine_inv e → engine_facts e →
  engine_facts (create_proposal uuid t0 proposer ttl desc ptype e).2.
Proof.
  intros (Hact & _ & _) (Hactive & Hhist & Hnodup & Hheap).
  rewrite create_proposal_spec. cbn [snd].
  split; [| split; [| split]]; cbn [heap active_proposals proposal_history].
  - apply map_Forall_insert_2.
    + eexists. split; [by apply list_lookup_middle |]. cbn. by eauto.
    + intros k a Ha. destruct (Hactive _ _ Ha) as (p & Hp & Hrest).
      exists p. split; [| done]. rewrite lookup_app_l; [done |]. by eapply lookup_lt_Some.
  - eapply Forall_impl; [exact Hhist |]. intros a (p & Hp & Hrest).
    exists p. split; [| done]. rewrite lookup_app_l; [done |]. by eapply lookup_lt_Some.
  - done.
  - apply Forall_app. split; [done |]. constructor; [| constructor].
    cbn. rewrite map_size_empty. split; [by left | lia].
Qed.

Lemma engine_facts_submit now ts pid node kind comm e :
  engine_inv e → engine_facts e →
  engine_facts (submit_echo now ts pid node kind comm e).2.
Proof.
  intros (Hact & Hinj & _) (Hactive & Hhist & Hnodup & Hheap).
  destruct (active_proposals e !! pid) as [a |] eqn:Ha;
    [| by rewrite submit_echo_not_found].
  destruct (Hact _ _ Ha) as [Hlt Hnotin].
  destruct (Hactive _ _ Ha) as (p & Hp & Hid & Hstatus & Hempty).
  assert (Hframe : ∀ p', Forall (λ b, ∃ q, <[a := p']> (heap e) !! b = Some q
                                         ∧ status q = CONVERGED ∧ size (echoes q) = 1%nat)
                                (proposal_history e)).
  { intros p'. apply Forall_forall. intros b Hb.
    eapply Forall_forall in Hhist; [| exact Hb]. destruct Hhist as (q & Hq & Hrest).
    exists q. split; [| done]. rewrite list_lookup_insert_ne; [done |]. by intros ->. }
  destruct (is_expired now p) eqn:Hexp.
  { erewrite submit_echo_expired by done. cbn [snd].
    split; [| split; [| split]]; cbn [store heap active_proposals proposal_history].
    - intros k a' Ha'. cbn beta. destruct (decide (a' = a)) as [-> | Hne].
      + rewrite (Hinj _ _ _ Ha' Ha). eexists.
        split; [by apply list_lookup_insert_eq |]. cbn. by eauto.
      + destruct (Hactive _ _ Ha') as (q & Hq & Hrest). exists q.
        split; [| done]. by rewrite list_lookup_insert_ne.
    - apply Hframe.
    - done.
    - apply Forall_insert; [done |]. cbn. rewrite Hempty, map_size_empty.
      split; [by right; left | lia]. }
  destruct (calculate_resonance_first_echo node
              (new_echo_response node pid kind comm ts) p Hempty) as (_ & Hconv & _).
  destruct (submit_echo_unexpired now ts pid node kind comm e a p Ha Hp Hexp)
    as [[_ ->] | [Hno _]]; [| congruence].
  cbn [snd]. split; [| split; [| split]]; cbn [heap active_proposals proposal_history].
  - intros k a' Ha'. cbn beta. apply lookup_delete_Some in Ha' as [Hk Ha'].
    destruct (Hactive _ _ Ha') as (q & Hq & Hrest). exists q. split; [| done].
    rewrite list_lookup_insert_ne; [done |]. intros ->. by apply Hk, (Hinj _ _ _ Ha Ha').
  - apply Forall_app. split; [apply Hframe |]. constructor; [| constructor].
    eexists. split; [by apply list_lookup_insert_eq |].
    cbn. rewrite Hempty, insert_empty, map_size_singleton. done.
  - apply NoDup_app. split; [done |]. split; [| apply NoDup_singleton].
    intros b Hb. rewrite list_elem_of_singleton. by intros ->.
  - apply Forall_insert; [done |]. cbn. rewrite Hempty, insert_empty, map_size_singleton.
    split; [by right; right | lia].
Qed.

Lemma engine_facts_run ops : engine_inv (run ops) ∧ engine_facts (run ops).
Proof.
  unfold run.
  cut (∀ e, engine_inv e → engine_facts e →
            engine_inv (foldl exec e ops) ∧ engine_facts (foldl exec e ops)).
  { intros Hcut. apply Hcut; [apply engine_inv_new | apply engine_facts_new]. }
  induction ops as [| op ops IH]; intros e Hinv Hfacts; [done |].
  cbn [foldl]. apply IH; [by apply engine_inv_exec |].
  destruct op; cbn [exec]; [by apply engine_facts_create | by apply engine_facts_submit].
Qed.

(** X9. After any sequence of engine calls, every proposal object the
    engine has made is [ACTIVE], [EXPIRED] or [CONVERGED], never [DRAFT] or
    [FAILED], and holds at most one vote. *)
Lemma objects_stay_in_lifecycle (ops : list Op) :
  Forall (λ p, (status p = ACTIVE ∨ status p = EXPIRED ∨ status p = CONVERGED)
               ∧ (size (echoes p) ≤ 1)%nat) (heap (run ops)).
Proof. apply engine_facts_run. Qed.

Lemma history_prefix_exec e op :
  proposal_history e `prefix_of` proposal_history (exec e op).
Proof.
  destruct (history_step e op) as [-> | (pid & a & _ & _ & _ & ->)];
    [done | by apply prefix_app_r].
Qed.

Lemma history_prefix_foldl ops e :
  proposal_history e `prefix_of` proposal_history (foldl exec e ops).
Proof.
  revert e. induction ops as [| op ops IH]; intros e; [done |].
  cbn [foldl]. etrans; [apply history_prefix_exec | apply IH].
Qed.

(** X10. The history only grows, at its end: what it holds after some
    engine calls is a prefix of what it holds after any further calls. It
    never lists a proposal twice, and every proposal in it holds exactly one
    vote. *)
Lemma history_append_only (ops more : list Op) :
  proposal_history (run ops) `prefix_of` proposal_history (run (ops ++ more))
  ∧ NoDup (proposal_history (run ops))
  ∧ Forall (λ a, ∃ p, heap (run ops) !! a = Some p ∧ size (echoes p) = 1%nat)
           (proposal_history (run ops)).
Proof.
  split; [unfold run; rewrite foldl_app; apply history_prefix_foldl |].
  destruct (engine_facts_run ops) as (_ & _ & Hhist & Hnodup & _).
  split; [done |]. eapply Forall_impl; [exact Hhist |].
  intros a (p & Hp & _ & Hsize). by exists p.
Qed.

(** X11. [create_proposal] followed by [get_proposal_status] on the new id
    reports the proposal as created: status ["active"] (never ["draft"]),
    no echoes, a deadline 24 hours after the creation time, and the tally of
    a proposal without votes. What is reported for any other id is as
    before. *)
Lemma create_then_status (ops : list Op) uuid t0 proposer ttl desc ptype :
  get_proposal_status uuid
    (exec (run ops) (CreateProposal uuid t0 proposer ttl desc ptype))
  = Some ({| d_id := uuid;
             d_proposer_node := proposer;
             d_title := ttl;
             d_description := desc;
             d_proposal_type := ptype;
             d_created_at := t0;
             d_expires_at := t0 + 86400000000;
             d_status := "active";
             d_echoes := ∅ |}, empty_resonance)
  ∧ ∀ k, k ≠ uuid →
      get_proposal_status k (exec (run ops) (CreateProposal uuid t0 proposer ttl desc ptype))
      = get_proposal_status k (run ops).
Proof.
  destruct (engine_facts_run ops) as ((Hact & _ & _) & _).
  cbn [exec]. rewrite create_proposal_spec. cbn [snd]. unfold get_proposal_status.
  cbn [heap active_proposals]. split.
  - rewrite lookup_insert_eq. cbn. rewrite list_lookup_middle by done. cbn.
    unfold to_dict. cbn. by rewrite fmap_empty.
  - intros k Hk. rewrite lookup_insert_ne by done.
    destruct (active_proposals (run ops) !! k) as [a |] eqn:Ha; [| done]. cbn.
    destruct (Hact _ _ Ha) as [Hlt _]. by rewrite lookup_app_l.
Qed.

(** What a report on a proposal of the active set looks like after engine
    calls. *)
Lemma active_report (ops : list Op) k a p :
  active_proposals (run ops) !! k = Some a →
  heap (run ops) !! a = Some p →
  d_id (to_dict p) = k
  ∧ (d_status (to_dict p) = "active" ∨ d_status (to_dict p) = "expired")
  ∧ d_echoes (to_dict p) = ∅
  ∧ calculate_resonance p = empty_resonance.
Proof.
  intros Ha Hp. destruct (engine_facts_run ops) as (_ & Hactive & _).
  destruct (Hactive _ _ Ha) as (q & Hq & Hid & Hstatus & Hempty).
  rewrite Hp in Hq. injection Hq as <-.
  split; [done |]. split; [destruct Hstatus as [Hs | Hs]; cbn; rewrite Hs; by eauto |].
  split; [cbn; by rewrite Hempty, fmap_empty | by apply calculate_resonance_empty].
Qed.

(** X12. After any sequence of engine calls, whatever [get_proposal_status]
    reports is a proposal under the id asked for, with status ["active"] or
    ["expired"], without echoes and with the tally of a proposal without
    votes: a vote that was cast never shows in a status report. *)
Lemma status_reports_show_no_vote (ops : list Op) pid d r :
  get_proposal_status pid (run ops) = Some (d, r) →
  d_id d = pid
  ∧ (d_status d = "active" ∨ d_status d = "expired")
  ∧ d_echoes d = ∅
  ∧ r = empty_resonance.
Proof.
  unfold get_proposal_status.
  destruct (active_proposals (run ops) !! pid) as [a |] eqn:Ha; [| done]. cbn.
  destruct (heap (run ops) !! a) as [p |] eqn:Hp; [| done]. cbn.
  intros [= <- <-]. by eapply active_report.
Qed.

Lemma status_reports_show_no_vote_witness :
  ∃ d r,
    get_proposal_status "p"
      (run [CreateProposal "p" 0 "claude" "t" "d" "general";
            CreateProposal "q" 1 "claude" "t" "d" "general";
            SubmitEcho 5 6 "q" "gemini" RESONANT "yes"]) = Some (d, r)
    ∧ d_status d = "active" ∧ r = empty_resonance.
Proof.
  eexists _, _. split; [vm_compute; reflexivity |].
  match goal with
  | |- d_status ?d = _ ∧ ?r = _ =>
      destruct (status_reports_show_no_vote
                  [CreateProposal "p" 0 "claude" "t" "d" "general";
                   CreateProposal "q" 1 "claude" "t" "d" "general";
                   SubmitEcho 5 6 "q" "gemini" RESONANT "yes"] "p" d r)
        as (_ & _ & _ & Hr); [vm_compute; reflexivity |]
  end.
  split; [reflexivity | exact Hr].
Defined.

(** X13. After any sequence of engine calls, every entry that
    [list_active_proposals] returns is a proposal without echoes and with
    the tally of a proposal without votes. *)
Lemma listing_shows_no_vote (ops : list Op) (now : string → Z) :
  Forall (λ view : ProposalDict * Resonance,
            d_echoes view.1 = ∅ ∧ view.2 = empty_resonance)
         (list_active_proposals now (run ops)).1.
Proof.
  apply Forall_forall. intros view Hin. cbn [list_active_proposals fst] in Hin.
  apply list_elem_of_omap in Hin as ([k a] & Hka & Hview).
  apply elem_of_map_to_list in Hka. cbn [fst snd] in Hview.
  destruct (heap (run ops) !! a) as [p |] eqn:Hp; [| done]. cbn in Hview.
  destruct (is_expired (now k) p); [done |]. injection Hview as <-.
  destruct (active_report ops k a p Hka Hp) as (_ & _ & Hechoes & Htally). done.
Qed.

(** X14. A vote on one proposal changes nothing of what is reported for
    the others: after any sequence of engine calls, [submit_echo] on [pid]
    leaves [get_proposal_status k] as it was for every [k] other than
    [pid]. *)
Lemma vote_leaves_others (ops : list Op) now ts pid node kind comm :
  ∀ k, k ≠ pid →
    get_proposal_status k (exec (run ops) (SubmitEcho now ts pid node kind comm))
    = get_proposal_status k (run ops).
Proof.
  intros k Hk. destruct (engine_facts_run ops) as ((Hact & Hinj & _) & _).
  cbn [exec]. set (e := run ops) in *.
  destruct (active_proposals e !! pid) as [a |] eqn:Ha;
    [| by rewrite submit_echo_not_found].
  destruct (Hact _ _ Ha) as [Hlt _].
  destruct (lookup_lt_is_Some_2 _ _ Hlt) as [p Hp].
  assert (Hother : ∀ p' a', active_proposals e !! k = Some a' →
                            <[a := p']> (heap e) !! a' = heap e !! a').
  { intros p' a' Ha'. apply list_lookup_insert_ne. intros ->.
    by apply Hk, (Hinj _ _ _ Ha' Ha). }
  unfold get_proposal_status.
  destruct (is_expired now p) eqn:Hexp.
  { erewrite submit_echo_expired by done. cbn [snd store heap active_proposals].
    destruct (active_proposals e !! k) as [a' |] eqn:Ha'; [| done]. cbn.
    by rewrite Hother. }
  destruct (submit_echo_unexpired now ts pid node kind comm e a p Ha Hp Hexp)
    as [[_ ->] | [_ ->]]; cbn [snd store heap active_proposals].
  - rewrite lookup_delete_ne by done.
    destruct (active_proposals e !! k) as [a' |] eqn:Ha'; [| done]. cbn.
    by rewrite Hother.
  - destruct (active_proposals e !! k) as [a' |] eqn:Ha'; [| done]. cbn.
    by rewrite Hother.
Qed.

Lemma vote_leaves_others_witness :
  get_proposal_status "p"
    (exec (run [CreateProposal "p" 0 "claude" "t" "d" "general";
                CreateProposal "q" 1 "claude" "t" "d" "general"])
          (SubmitEcho 5 6 "q" "gemini" RESONANT "yes"))
  = get_proposal_status "p"
      (run [CreateProposal "p" 0 "claude" "t" "d" "general";
            CreateProposal "q" 1 "claude" "t" "d" "general"]).
Proof.
  apply (vote_leaves_others
           [CreateProposal "p" 0 "claude" "t" "d" "general";
            CreateProposal "q" 1 "claude" "t" "d" "general"] 5 6 "q" "gemini" RESONANT "yes").
  discriminate.
Defined.

End EngineFacts.

(** * More on the bus: the peer directory *)

Section DirectoryFacts.
Import Encryption EchoBus.
Context {L : Library}.

Implicit Types (self : EchoBus) (data : gmap string string).
Implicit Types (d : list (string * bytes)).

Lemma dict_get_None key d : dict_get key d = None ↔ key ∉ d.*1.
Proof.
  induction d as [| [k v] d IH]; cbn [dict_get fmap list_fmap fst].
  - split; [intros _; apply not_elem_of_nil | done].
  - rewrite not_elem_of_cons. case_decide as Hk.
    + subst k. split; [done | by intros [? _]].
    + rewrite IH. split; [intros ?; split; [congruence | done] | by intros [_ ?]].
Qed.

Lemma dict_get_set_eq key value d : dict_get key (dict_set key value d) = Some value.
Proof.
  induction d as [| [k v] d IH]; cbn [dict_get dict_set].
  - by rewrite decide_True.
  - case_decide as Hk; cbn [dict_get]; [by rewrite decide_True | by rewrite decide_False].
Qed.

Lemma dict_get_set_ne key other value d :
  other ≠ key → dict_get other (dict_set key value d) = dict_get other d.
Proof.
  intros Hne. induction d as [| [k v] d IH]; cbn [dict_get dict_set].
  - by rewrite decide_False.
  - case_decide as Hk; cbn [dict_get].
    + subst k. by rewrite !decide_False by done.
    + case_decide; [done | apply IH].
Qed.

(** An assignment to a key that is there leaves the order of the keys, an
    assignment to a new key appends it. *)
Lemma dict_set_keys key value d :
  (dict_set key value d).*1 = if decide (key ∈ d.*1) then d.*1 else d.*1 ++ [key].
Proof.
  induction d as [| [k v] d IH]; cbn [dict_set fmap list_fmap fst app].
  - rewrite decide_False; [done | apply not_elem_of_nil].
  - destruct (decide (k = key)) as [-> | Hk]; cbn [fmap list_fmap fst].
    + rewrite decide_True; [done | by left].
    + change (list_fmap _ _ fst ?l) with (l.*1). rewrite IH.
      destruct (decide (key ∈ d.*1)) as [Hin | Hnotin].
      * rewrite decide_True; [done | by right].
      * rewrite decide_False; [done |]. rewrite not_elem_of_cons. naive_solver.
Qed.


(** A payload that is no announcement, and an announcement of the node
    itself, change nothing. *)
Lemma handle_broadcast_ignores self data :
  data !! "type" ≠ Some "consciousness_announcement"
  ∨ data !! "node_id" = Some (node_id self) →
  _handle_broadcast self data = Some self.
Proof.
  intros [Htype | Hself]; unfold _handle_broadcast.
  - by rewrite decide_False.
  - case_decide; [| done]. rewrite Hself. by rewrite decide_False by naive_solver.
Qed.

(** X15. An announcement of another node files its public key under its id
    and overwrites what was filed there (the last announcement wins). The
    entries of the other nodes are untouched; a node that was known keeps
    its place in the directory and a new one goes to its end; the rest of
    the bus is as before. *)
Lemma announcement_last_write_wins self data node public_key :
  data !! "type" = Some "consciousness_announcement" →
  data !! "node_id" = Some node →
  data !! "public_key" = Some public_key →
  node ≠ node_id self →
  ∃ self',
    _handle_broadcast self data = Some self'
    ∧ dict_get node (peer_keys self') = Some (str_encode public_key)
    ∧ (∀ other, other ≠ node →
         dict_get other (peer_keys self') = dict_get other (peer_keys self))
    ∧ (peer_keys self').*1
      = (if decide (node ∈ (peer_keys self).*1) then (peer_keys self).*1
         else (peer_keys self).*1 ++ [node])
    ∧ node_id self' = node_id self
    ∧ encryption self' = encryption self
    ∧ subscribers self' = subscribers self
    ∧ connected self' = connected self.
Proof.
  intros Htype Hnode Hkey Hne. eexists. unfold _handle_broadcast.
  rewrite decide_True by done. rewrite Hnode, decide_True by done. rewrite Hkey.
  split; [reflexivity |]. cbn [set_peer_keys peer_keys node_id encryption subscribers connected].
  split; [apply dict_get_set_eq |].
  split; [intros other Hother; by apply dict_get_set_ne |].
  split; [apply dict_set_keys | done].
Qed.



End DirectoryFacts.

(** * More on the bus: receiving and sending *)

Section InboxFacts.
Import Encryption EchoBus.
Context {L : Library}.

Implicit Types (self : EchoBus) (data : gmap string string).

(** One attempt calls [decrypt_message] at most once, for its own peer. *)
Lemma attempt_decrypts_once self data s pk :
  decrypt_attempts (attempt self data s pk).1 = []
  ∨ decrypt_attempts (attempt self data s pk).1 = [s].
Proof.
  unfold attempt. destruct (derive_shared_key (encryption self) pk); [| by left].
  destruct (_ ≫= _); [| by right].
  destruct (subscribers self !! "message_handler"); by right.
Qed.

Lemma try_peer_keys_attempts self data items :
  decrypt_attempts (try_peer_keys self data items) `sublist_of` items.*1.
Proof.
  induction items as [| [s pk] items IH]; [done |].
  cbn [try_peer_keys fmap list_fmap fst].
  pose proof (attempt_decrypts_once self data s pk) as Honce.
  destruct (attempt self data s pk) as [events [u | err]]; cbn [fst] in Honce.
  - destruct Honce as [-> | ->]; [apply sublist_nil_l |].
    apply sublist_skip, sublist_nil_l.
  - unfold decrypt_attempts in *. rewrite omap_app.
    destruct Honce as [-> | ->]; cbn [app]; [by apply sublist_cons | by apply sublist_skip].
Qed.

(** X17. The peers whose key the inbox callback uses for a decryption are,
    in this order, peers of the directory, each taken at most once per
    position: the callback never decrypts with a key that the directory
    does not hold, and never more often than the directory has entries. *)
Lemma attempts_follow_directory self data :
  decrypt_attempts (_handle_message self data) `sublist_of` (peer_keys self).*1
  ∧ (length (decrypt_attempts (_handle_message self data)) ≤ length (peer_keys self))%nat.
Proof.
  assert (Hsub : decrypt_attempts (_handle_message self data)
                 `sublist_of` (peer_keys self).*1).
  { unfold _handle_message. case_decide; [apply try_peer_keys_attempts |].
    apply sublist_nil_l. }
  split; [exact Hsub |]. apply sublist_length in Hsub. by rewrite length_fmap in Hsub.
Qed.




End InboxFacts.

Section SendFacts.
Import Encryption EchoBus.
Context {L : Library} {T : Transport L}.

Implicit Types (self : EchoBus) (data : gmap string string).

(** X18. [send_secure_message] hands the transport at most one payload, and
    one exactly when it returns [True]; that payload goes to the inbox
    subject of the target and is the serialised envelope of an encryption
    under the key derived from the directory entry of the target. When the
    target is not in the directory it returns [False] and publishes
    nothing. *)
Lemma send_secure_message_outcome now iv self target message :
  (dict_get target (peer_keys self) = None →
     send_secure_message now iv self target message = (false, []))
  ∧ ((send_secure_message now iv self target message).1 = false →
     (send_secure_message now iv self target message).2 = [])
  ∧ ((send_secure_message now iv self target message).1 = true →
     ∃ public_key shared_key envelope,
       dict_get target (peer_keys self) = Some public_key
       ∧ derive_shared_key (encryption self) public_key = Ok shared_key
       ∧ encrypt_message iv (dumps_full_message (node_id self) target now message)
           shared_key = Ok envelope
       ∧ (send_secure_message now iv self target message).2
         = [Publish ("consciousness." +:+ target) (str_encode (dumps_envelope envelope))]).
Proof.
  unfold send_secure_message.
  destruct (dict_get target (peer_keys self)) as [pk |]; [| done].
  split; [done |].
  destruct (derive_shared_key (encryption self) pk) as [key |] eqn:Hkey; [| done]. cbn.
  destruct (encrypt_message iv _ key) as [env |] eqn:Henv; [| done]. cbn.
  destruct (nc_publish _ _); [| done]. cbn.
  split; [done |]. intros _. by exists pk, key, env.
Qed.

Context {HL : LibrarySpec L}.

(** X19. Once the announcement of a node has been handled, a message to
    that node is sent under the key derived from the announced public key,
    the newest one if the node was known before: with that derivation going
    through and the transport taking the payload, [send_secure_message]
    returns [True] and publishes one envelope to the inbox of the node. *)
Lemma announce_then_send now iv self data node public_key shared_key message :
  data !! "type" = Some "consciousness_announcement" →
  data !! "node_id" = Some node →
  data !! "public_key" = Some public_key →
  node ≠ node_id self →
  derive_shared_key (encryption self) (str_encode public_key) = Ok shared_key →
  length iv = 12 →
  (∀ subject payload, nc_publish subject payload = Ok ()) →
  ∃ self' envelope,
    _handle_broadcast self data = Some self'
    ∧ encrypt_message iv (dumps_full_message (node_id self) node now message) shared_key
      = Ok envelope
    ∧ send_secure_message now iv self' node message
      = (true, [Publish ("consciousness." +:+ node) (str_encode (dumps_envelope envelope))]).
Proof.
  intros Htype Hnode Hkey Hne Hderive Hiv Hpublish.
  pose proof (derive_shared_key_length _ _ _ Hderive) as Hlen.
  set (text := dumps_full_message (node_id self) node now message).
  assert (Henc : ∃ envelope, encrypt_message iv text shared_key = Ok envelope).
  { unfold encrypt_message.
    destruct (gcm_encrypt_returns shared_key iv (str_encode text) Hlen Hiv) as (c & tag & ->).
    destruct (b64_round_trip c) as (c_text & Hc & _).
    destruct (b64_round_trip iv) as (iv_text & Hi & _).
    destruct (b64_round_trip tag) as (tag_text & Ht & _).
    cbn. rewrite Hc. cbn. rewrite Hi. cbn. rewrite Ht. cbn. by eexists. }
  destruct Henc as (envelope & Henc).
  eexists _, envelope. unfold _handle_broadcast.
  rewrite decide_True by done. rewrite Hnode, decide_True by done. rewrite Hkey.
  split; [reflexivity |]. split; [exact Henc |].
  unfold send_secure_message. cbn [set_peer_keys peer_keys node_id encryption].
  rewrite dict_get_set_eq, Hderive. cbn. fold text. rewrite Henc. cbn.
  by rewrite Hpublish.
Qed.

End SendFacts.

(** * More on the encryption layer: key agreement *)

Section KeyAgreementFacts.
Import Encryption.
Context {L : Library} {K : KeyLibrary L}.
Context {HL : LibrarySpec L} {HK : KeyLibrarySpec L K}.

(** X20. Two nodes that each hold a serialisation of the other's public
    key derive the same session key, of 32 bytes. *)
Lemma shared_key_agreement (sk_a sk_b : ec_private_key) (pem_a pem_b : bytes) :
  load_pem_public_key pem_a = Ok (public_key (generate_key_pair sk_a)) →
  load_pem_public_key pem_b = Ok (public_key (generate_key_pair sk_b)) →
  ∃ key,
    derive_shared_key (generate_key_pair sk_a) pem_b = Ok key
    ∧ derive_shared_key (generate_key_pair sk_b) pem_a = Ok key
    ∧ length key = 32.
Proof.
  intros Ha Hb. destruct (ecdh_symmetric sk_a sk_b) as (secret & Hab & Hba).
  exists (hkdf_derive secret). unfold derive_shared_key.
  rewrite Ha, Hb. cbn. rewrite Hab, Hba. cbn.
  split; [done |]. split; [done |]. apply hkdf_length.
Qed.

End KeyAgreementFacts.

(** The second instance meets the contracts. *)
Lemma dh_spec : Encryption.LibrarySpec Toy.dh_library.
Proof.
  split.
  - intros s. exact (f_equal Ok (String.string_of_list_byte_of_string s)).
  - intros b. exists (String.string_of_list_byte b). split; [reflexivity |].
    exact (f_equal Ok (String.list_byte_of_string_of_list_byte b)).
  - intros key iv m Hkey _. change (∃ c tag, Toy.toy_gcm_encrypt key iv m = Ok (c, tag)).
    unfold Toy.toy_gcm_encrypt. rewrite decide_True by done. by eexists _, _.
  - intros key iv m c tag.
    change (Toy.toy_gcm_encrypt key iv m = Ok (c, tag) → Toy.toy_gcm_decrypt key iv tag c = Ok m).
    unfold Toy.toy_gcm_encrypt, Toy.toy_gcm_decrypt.
    case_decide; [| done]. intros [= <- <-]. by rewrite decide_True.
  - intros secret. change (length (Toy.toy_hkdf secret) = 32). unfold Toy.toy_hkdf.
    rewrite length_take, length_app, length_replicate. lia.
Qed.

Lemma dh_keys_spec : Encryption.KeyLibrarySpec Toy.dh_library Toy.dh_keys.
Proof.
  split. intros sk1 sk2. exists (replicate (sk1 + sk2) Byte.x01).
  split; [reflexivity |].
  change (Ok (replicate (sk2 + sk1) Byte.x01) = Ok (replicate (sk1 + sk2) Byte.x01) :> result Encryption.bytes).
  by rewrite (Nat.add_comm sk2 sk1).
Qed.

Section MoreToyRuns.
Import Encryption EchoBus Toy.

Lemma shared_key_agreement_witness :
  ∃ key,
    derive_shared_key (L := dh_library)
      (generate_key_pair (L := dh_library) (K := dh_keys) 3) (replicate 5 Byte.x00) = Ok key
    ∧ derive_shared_key (L := dh_library)
        (generate_key_pair (L := dh_library) (K := dh_keys) 5) (replicate 3 Byte.x00) = Ok key
    ∧ length key = 32.
Proof.
  apply (shared_key_agreement (L := dh_library) (K := dh_keys) (HL := dh_spec)
           (HK := dh_keys_spec) 3 5 (replicate 3 Byte.x00) (replicate 5 Byte.x00));
    reflexivity.
Defined.

(** Bob announces a second public key: it takes the place of the first,
    after alice. *)
Lemma announcement_last_write_wins_witness :
  ∃ self',
    _handle_broadcast carol (announcement "bob" "B2") = Some self'
    ∧ dict_get "bob" (peer_keys self') = Some (str_encode "B2")
    ∧ dict_get "alice" (peer_keys self') = Some [Byte.x41]
    ∧ (peer_keys self').*1 = ["alice"; "bob"].
Proof.
  destruct (announcement_last_write_wins carol (announcement "bob" "B2") "bob" "B2")
    as (self' & Hrun & Hbob & Hothers & Hkeys & _);
    [reflexivity | reflexivity | reflexivity | discriminate |].
  exists self'. split; [exact Hrun |]. split; [exact Hbob |].
  split; [rewrite Hothers by discriminate; reflexivity |].
  rewrite Hkeys. reflexivity.
Defined.



(** Carol hears bob and writes to him. *)
Lemma announce_then_send_witness :
  ∃ self' envelope,
    _handle_broadcast carol_new (announcement "bob" "B") = Some self'
    ∧ encrypt_message nonce (dumps_full_message "carol" "bob" 7 "hi") carol_bob_key
      = Ok envelope
    ∧ send_secure_message 7 nonce self' "bob" "hi"
      = (true, [Publish "consciousness.bob" (str_encode (dumps_envelope envelope))]).
Proof.
  apply (announce_then_send 7 nonce carol_new (announcement "bob" "B") "bob" "B"
           carol_bob_key "hi");
    first [reflexivity | discriminate].
Defined.

End MoreToyRuns.
